(** * KeycapModel: the press / release animation of the 3D keycap

    A shallow embedding of [src/components/KeycapModel.tsx].

    Numbers.  The source computes with JavaScript numbers; here a number is
    an exact rational ([Q], compared with [==]), so the arithmetic below is
    the arithmetic the source writes down, without the rounding of binary64.
    [Math.max] and [Math.min] are [Qmax] and [Qmin].  The module [Binary64]
    repeats the scalar updates of the frame callback on IEEE doubles, to run
    them as JavaScript does.

    Objects.  [group] and [shadowRef] are React refs: they hold [null]
    until the element is mounted, hence the [option]s. *)

From Stdlib Require Import ZArith QArith Qminmax Qround Qabs Lqa Lia.
From Stdlib Require Import List String Ascii Bool Arith.
From Stdlib Require PrimFloat.
Import ListNotations.

Open Scope Q_scope.

(** ** three.js data *)

Module Vector3.
Record t : Type := mk { x : Q; y : Q; z : Q }.

(** [v.set(a, b, c)] *)
Definition set (a b c : Q) (_ : t) : t := mk a b c.
(** [v.x = a], [v.y = a], [v.z = a] *)
Definition set_x (a : Q) (v : t) : t := mk a (y v) (z v).
Definition set_y (a : Q) (v : t) : t := mk (x v) a (z v).
Definition set_z (a : Q) (v : t) : t := mk (x v) (y v) a.
End Vector3.

Record Object3D : Type := mkObject3D {
  position : Vector3.t;
  rotation : Vector3.t;
  scale : Vector3.t
}.

Record MeshBasicMaterial : Type := mkMeshBasicMaterial { opacity : Q }.

(** The shadow plane: an object of the scene graph with its material. *)
Record Mesh : Type := mkMesh {
  object3D : Object3D;
  material : MeshBasicMaterial
}.

Definition with_position (f : Vector3.t -> Vector3.t) (o : Object3D) : Object3D :=
  mkObject3D (f (position o)) (rotation o) (scale o).
Definition with_rotation (f : Vector3.t -> Vector3.t) (o : Object3D) : Object3D :=
  mkObject3D (position o) (f (rotation o)) (scale o).
Definition with_scale (f : Vector3.t -> Vector3.t) (o : Object3D) : Object3D :=
  mkObject3D (position o) (rotation o) (f (scale o)).
Definition with_object3D (f : Object3D -> Object3D) (m : Mesh) : Mesh :=
  mkMesh (f (object3D m)) (material m).
Definition with_opacity (a : Q) (m : Mesh) : Mesh :=
  mkMesh (object3D m) (mkMeshBasicMaterial a).

(** The two refs of the component. *)
Record Refs : Type := mkRefs {
  group : option Object3D;
  shadowRef : option Mesh
}.

Definition Math_max : Q -> Q -> Q := Qmax.
Definition Math_min : Q -> Q -> Q := Qmin.

(** ** The frame callback *)

(** Pressed branch, the keycap:
<<
  group.current.scale.z    = Math.max(group.current.scale.z - 0.04, 0.65);
  group.current.position.z = Math.max(group.current.position.z - 0.02, -0.15);
  group.current.rotation.x = Math.min(group.current.rotation.x + 0.005, 0.03);
>> *)
Definition pressGroup (g : Object3D) : Object3D :=
  let g1 := with_scale
              (Vector3.set_z (Math_max (Vector3.z (scale g) - 0.04) 0.65)) g in
  let g2 := with_position
              (Vector3.set_z (Math_max (Vector3.z (position g1) - 0.02) (-0.15))) g1 in
  with_rotation
    (Vector3.set_x (Math_min (Vector3.x (rotation g2) + 0.005) 0.03)) g2.

(** Pressed branch, the shadow:
<<
  shadowRef.current.scale.set(0.9, 0.9, 1);
  shadowRef.current.position.z = -0.03;
  material.opacity = 0.6;
>> *)
Definition pressShadow (s : Mesh) : Mesh :=
  let s1 := with_object3D (with_scale (Vector3.set 0.9 0.9 1)) s in
  let s2 := with_object3D (with_position (Vector3.set_z (-0.03))) s1 in
  with_opacity 0.6 s2.

(** [value += (target - value) * rate] *)
Definition ease (target value rate : Q) : Q := value + (target - value) * rate.

Definition targetZ : Q := 0.
Definition targetRotX : Q := 0.
Definition targetScaleZ : Q := 1.
Definition positionSpeed : Q := 0.12.
Definition rotationSpeed : Q := 0.15.
Definition scaleSpeed : Q := 0.1.

(** Idle branch, the keycap.  The source reads [currentZ], [currentRotX] and
    [currentScaleZ] before it writes; each write touches another field, so
    the value added to is the value read. *)
Definition releaseGroup (g : Object3D) : Object3D :=
  let currentZ := Vector3.z (position g) in
  let currentRotX := Vector3.x (rotation g) in
  let currentScaleZ := Vector3.z (scale g) in
  let g1 := with_scale
              (Vector3.set_z (Vector3.z (scale g)
                              + (targetScaleZ - currentScaleZ) * scaleSpeed)) g in
  let g2 := with_position
              (Vector3.set_z (Vector3.z (position g1)
                              + (targetZ - currentZ) * positionSpeed)) g1 in
  with_rotation
    (Vector3.set_x (Vector3.x (rotation g2)
                    + (targetRotX - currentRotX) * rotationSpeed)) g2.

(** Idle branch, the shadow:
<<
  shadowRef.current.scale.x    += (1 - shadowRef.current.scale.x) * 0.1;
  shadowRef.current.scale.y    += (1 - shadowRef.current.scale.y) * 0.1;
  shadowRef.current.position.z += (0 - shadowRef.current.position.z) * 0.1;
  material.opacity             += (0.4 - material.opacity) * 0.1;
>> *)
Definition releaseShadow (s : Mesh) : Mesh :=
  let s1 := with_object3D
              (with_scale (fun v => Vector3.set_x (ease 1 (Vector3.x v) 0.1) v)) s in
  let s2 := with_object3D
              (with_scale (fun v => Vector3.set_y (ease 1 (Vector3.y v) 0.1) v)) s1 in
  let s3 := with_object3D
              (with_position (fun v => Vector3.set_z (ease 0 (Vector3.z v) 0.1) v)) s2 in
  with_opacity (ease 0.4 (opacity (material s3)) 0.1) s3.

(** [useFrame(() => { if (group.current) { if (isPressed) ... else ... } })]:
    nothing happens while the group is not mounted, and the shadow is only
    touched when its own ref is set. *)
Definition useFrame (isPressed : bool) (r : Refs) : Refs :=
  match group r with
  | None => r
  | Some g =>
      if isPressed
      then mkRefs (Some (pressGroup g)) (option_map pressShadow (shadowRef r))
      else mkRefs (Some (releaseGroup g)) (option_map releaseShadow (shadowRef r))
  end.

(** [n] consecutive frames in one press state. *)
Definition frames (isPressed : bool) (n : nat) (r : Refs) : Refs :=
  Nat.iter n (useFrame isPressed) r.

(** The rest pose set up by the camera effect and the JSX:
    [position.z = 0], [scale.set(1, 1, 1)], no tilt. *)
Definition atRest (g : Object3D) : Prop :=
  Vector3.z (position g) == 0 /\
  Vector3.x (rotation g) == 0 /\
  Vector3.z (scale g) == 1.

Definition shadowAtRest (s : Mesh) : Prop :=
  Vector3.x (scale (object3D s)) == 1 /\
  Vector3.y (scale (object3D s)) == 1 /\
  Vector3.z (position (object3D s)) == 0 /\
  opacity (material s) == 0.4.

(** Equality of poses, number by number. *)
Definition sameVector (u v : Vector3.t) : Prop :=
  Vector3.x u == Vector3.x v /\ Vector3.y u == Vector3.y v /\ Vector3.z u == Vector3.z v.
Definition sameObject (a b : Object3D) : Prop :=
  sameVector (position a) (position b) /\
  sameVector (rotation a) (rotation b) /\
  sameVector (scale a) (scale b).
Definition sameMesh (a b : Mesh) : Prop :=
  sameObject (object3D a) (object3D b) /\ opacity (material a) == opacity (material b).

(** Two values of a ref: both unset, or both set to related objects. *)
Definition bothRefs {A : Type} (R : A -> A -> Prop) (a b : option A) : Prop :=
  match a, b with
  | Some u, Some v => R u v
  | None, None => True
  | _, _ => False
  end.

Definition sameRefs (r r' : Refs) : Prop :=
  bothRefs sameObject (group r) (group r') /\
  bothRefs sameMesh (shadowRef r) (shadowRef r').

Definition refsAtRest (r : Refs) : Prop :=
  match group r with Some g => atRest g | None => True end /\
  match shadowRef r with Some s => shadowAtRest s | None => True end.

(** The parts of the keycap the animation has no business with. *)
Definition keepsOffAxes (g g' : Object3D) : Prop :=
  Vector3.x (position g') = Vector3.x (position g) /\
  Vector3.y (position g') = Vector3.y (position g) /\
  Vector3.y (rotation g') = Vector3.y (rotation g) /\
  Vector3.z (rotation g') = Vector3.z (rotation g) /\
  Vector3.x (scale g') = Vector3.x (scale g) /\
  Vector3.y (scale g') = Vector3.y (scale g).

(** The parts of the shadow plane the animation leaves alone. *)
Definition keepsShadowPlacement (s s' : Mesh) : Prop :=
  Vector3.x (position (object3D s')) = Vector3.x (position (object3D s)) /\
  Vector3.y (position (object3D s')) = Vector3.y (position (object3D s)) /\
  rotation (object3D s') = rotation (object3D s).

(** [v'] is strictly nearer to [target] than [v], on the same side. *)
Definition strictlyCloser (target v v' : Q) : Prop :=
  Qabs (target - v') < Qabs (target - v) /\
  0 <= (target - v') * (target - v).

(** The seven eased quantities of a frame in the idle state. *)
Definition easedQuantities (g g' : Object3D) (s s' : Mesh) : list (Q * Q * Q * Q) :=
  [ (targetZ, positionSpeed, Vector3.z (position g), Vector3.z (position g'));
    (targetRotX, rotationSpeed, Vector3.x (rotation g), Vector3.x (rotation g'));
    (targetScaleZ, scaleSpeed, Vector3.z (scale g), Vector3.z (scale g'));
    (1, 0.1, Vector3.x (scale (object3D s)), Vector3.x (scale (object3D s')));
    (1, 0.1, Vector3.y (scale (object3D s)), Vector3.y (scale (object3D s')));
    (0, 0.1, Vector3.z (position (object3D s)), Vector3.z (position (object3D s')));
    (0.4, 0.1, opacity (material s), opacity (material s')) ].

(** [v'] is no farther from [target] than [v], and not on the other side
    of it. *)
Definition towards (target v v' : Q) : Prop :=
  Qabs (target - v') <= Qabs (target - v) /\
  0 <= (target - v') * (target - v).

(** What a tick of easing does to one quantity: it is the update of the
    source; the value ends no farther from its target and on the same side;
    it ends strictly nearer whenever the tick changes it at all; and a
    value on its target is left there. *)
Definition approaches (q : Q * Q * Q * Q) : Prop :=
  let '(target, rate, v, v') := q in
  v' == v + (target - v) * rate /\
  towards target v v' /\
  (~ v' == v -> Qabs (target - v') < Qabs (target - v)) /\
  (v == target -> v' == v).

(** Every eased quantity gets strictly nearer to its target in each idle
    frame, whatever the pose. *)
Definition idleAlwaysStrictlyCloser : Prop :=
  forall (r : Refs) (g g' : Object3D) (s s' : Mesh),
    group r = Some g -> shadowRef r = Some s ->
    group (useFrame false r) = Some g' -> shadowRef (useFrame false r) = Some s' ->
    Forall (fun q => let '(target, _, v, v') := q in strictlyCloser target v v')
           (easedQuantities g g' s s').

(** A keycap and a shadow plane in the rest pose.  The plane lies flat in
    the JSX, turned a quarter about x; no rational is that angle, and the
    animation never reads it, so the rotation is left at 0 here. *)
Definition restObject : Object3D :=
  mkObject3D (Vector3.mk 0 0.2 0) (Vector3.mk 0 0 0) (Vector3.mk 1 1 1).
Definition restShadow : Mesh :=
  mkMesh (mkObject3D (Vector3.mk 0 (-0.2) 0) (Vector3.mk 0 0 0) (Vector3.mk 1 1 1))
         (mkMeshBasicMaterial 0.4).
Definition restRefs : Refs := mkRefs (Some restObject) (Some restShadow).

(** ** Audio *)

(** [channelData] holds the numbers the loop assigns; the [Float32Array] of
    the source stores each of them rounded to binary32. *)
Module AudioBuffer.
Record t : Type := mk {
  sampleRate : Q;
  length : nat;
  channelData : list Q
}.
End AudioBuffer.

(** The [Audio] object of three.js as far as the component uses it.
    [playCalls] and [stopCalls] count the calls of [play()] and [stop()]. *)
Record Audio : Type := mkAudio {
  buffer : option AudioBuffer.t;
  volume : Q;
  isPlaying : bool;
  playCalls : nat;
  stopCalls : nat
}.

(** [new Audio(listener)]: no buffer yet, gain 1, silent. *)
Definition newAudio : Audio := mkAudio None 1 false 0 0.

Definition setBuffer (b : AudioBuffer.t) (a : Audio) : Audio :=
  mkAudio (Some b) (volume a) (isPlaying a) (playCalls a) (stopCalls a).
Definition setVolume (v : Q) (a : Audio) : Audio :=
  mkAudio (buffer a) v (isPlaying a) (playCalls a) (stopCalls a).
Definition play (a : Audio) : Audio :=
  mkAudio (buffer a) (volume a) true (S (playCalls a)) (stopCalls a).
Definition stop (a : Audio) : Audio :=
  mkAudio (buffer a) (volume a) false (playCalls a) (S (stopCalls a)).
(** The source node reports that it has played to its end. *)
Definition onEnded (a : Audio) : Audio :=
  mkAudio (buffer a) (volume a) false (playCalls a) (stopCalls a).

Definition Qltb (a b : Q) : bool := negb (Qle_bool b a).

Definition ofNat (n : nat) : Q := inject_Z (Z.of_nat n).

(** The value written to [channelData[i]] in a buffer of [len] samples,
    [r] being what [Math.random()] returned for that sample:
<<
  if (i < buffer.length * 0.1) channelData[i] = Math.random() * 0.5;
  else channelData[i] = Math.random() * 0.5 * (1 - (i / buffer.length));
>> *)
Definition fallbackSample (len : nat) (i : nat) (r : Q) : Q :=
  if Qltb (ofNat i) (ofNat len * 0.1)
  then r * 0.5
  else r * 0.5 * (1 - (ofNat i / ofNat len)).

(** The largest amplitude sample [i] can take: [Math.random()] is below 1,
    so the sample lies between 0 and [fallbackSample len i 1]. *)
Definition envelope (len : nat) (i : nat) : Q := fallbackSample len i 1.

(** [createFallbackSound(audio, listener)].  [rate] is
    [listener.context.sampleRate]; [createBuffer] takes its length as an
    integer, so [sampleRate * 0.1] is truncated; [random i] is the value
    of the call of [Math.random()] made for sample [i]. *)
Definition createFallbackSound (rate : Q) (random : nat -> Q) (audio : Audio) : Audio :=
  let len := Z.to_nat (Qfloor (rate * 0.1)) in
  let data := map (fun i => fallbackSample len i (random i)) (seq 0 len) in
  let buffer := AudioBuffer.mk rate len data in
  setVolume 0.3 (setBuffer buffer audio).

(** How [audioLoader.load] ended, if it has. *)
Inductive LoadResult : Type :=
| Loaded (b : AudioBuffer.t)
| LoadError.

(** The callbacks of [audioLoader.load].  They run when the loader is done
    and change the [Audio] object that [sound.current] already holds. *)
Definition audioLoaded (result : LoadResult) (rate : Q) (random : nat -> Q)
           (audio : Audio) : Audio :=
  match result with
  | Loaded b => setVolume 0.7 (setBuffer b audio)
  | LoadError => createFallbackSound rate random audio
  end.

(** ** The component: press state, timers, click handler *)

(** The two callbacks the component hands to [setTimeout]. *)
Inductive TimerCallback : Type :=
| PlaySound      (* () => { if (sound.current) sound.current.play(); } *)
| ReleaseKey.    (* () => setIsPressed(false) *)

Record Timer : Type := mkTimer { due : nat; callback : TimerCallback }.

(** What lives across renders.  [isPressed] is the React state, as
    [setIsPressed] last set it: the value the next render will read.
    [now] is the host's clock in milliseconds, [timers] the pending
    timeouts in the order in which they fire, [onClickCalls] the number of
    calls of the [onClick] prop. *)
Record Component : Type := mkComponent {
  isPressed : bool;
  sound : option Audio;
  refs : Refs;
  now : nat;
  timers : list Timer;
  onClickCalls : nat
}.

Definition setIsPressed (b : bool) (c : Component) : Component :=
  mkComponent b (sound c) (refs c) (now c) (timers c) (onClickCalls c).
Definition onClick (c : Component) : Component :=
  mkComponent (isPressed c) (sound c) (refs c) (now c) (timers c) (S (onClickCalls c)).
Definition setSound (a : option Audio) (c : Component) : Component :=
  mkComponent (isPressed c) a (refs c) (now c) (timers c) (onClickCalls c).
Definition setRefs (r : Refs) (c : Component) : Component :=
  mkComponent (isPressed c) (sound c) r (now c) (timers c) (onClickCalls c).
Definition setNow (t : nat) (c : Component) : Component :=
  mkComponent (isPressed c) (sound c) (refs c) t (timers c) (onClickCalls c).
Definition setTimers (l : list Timer) (c : Component) : Component :=
  mkComponent (isPressed c) (sound c) (refs c) (now c) l (onClickCalls c).

(** A new timeout fires after every pending one that is due no later. *)
Fixpoint enqueue (t : Timer) (l : list Timer) : list Timer :=
  match l with
  | [] => [t]
  | u :: l' => if (due u <=? due t)%nat then u :: enqueue t l' else t :: l
  end.

Definition setTimeout (cb : TimerCallback) (delay : nat) (c : Component) : Component :=
  setTimers (enqueue (mkTimer (now c + delay) cb) (timers c)) c.

(** [handleClick]:
<<
  if (isPressed) return;
  setIsPressed(true);
  onClick();
  if (sound.current) {
    if (sound.current.isPlaying) sound.current.stop();
    setTimeout(() => { if (sound.current) sound.current.play(); }, 10);
  }
  setTimeout(() => setIsPressed(false), 200);
>>
    The guard reads the [isPressed] of the render that built the handler.
    [handleClick c] is the handler of a render that has read the state as
    it is in [c]; [handleClickWith] below is the handler of any render. *)
Definition handleClick (c : Component) : Component :=
  if isPressed c then c
  else
    let c1 := setIsPressed true c in
    let c2 := onClick c1 in
    let c3 :=
      match sound c2 with
      | Some a =>
          let c' := if isPlaying a then setSound (Some (stop a)) c2 else c2 in
          setTimeout PlaySound 10 c'
      | None => c2
      end in
    setTimeout ReleaseKey 200 c3.

Definition runCallback (cb : TimerCallback) (c : Component) : Component :=
  match cb with
  | PlaySound =>
      match sound c with
      | Some a => setSound (Some (play a)) c
      | None => c
      end
  | ReleaseKey => setIsPressed false c
  end.

(** What the host can do to the component.  [step] delivers an event to
    the callbacks of a render that has read the state as it is: React has
    rendered the component again since [isPressed] last changed.  [hostStep]
    below does without that and has the renders as events of their own. *)
Inductive Event : Type :=
| Click                 (* a pointer click: [handleClick()] *)
| Elapse (ms : nat)     (* time passes *)
| TimerFires            (* the host runs the first pending timeout, if due *)
| Frame                 (* a render-loop tick *)
| SoundEnds             (* playback reaches the end of the buffer *)
| AudioLoads (result : LoadResult) (rate : Q) (random : nat -> Q).
                        (* the audio loader is done *)

Definition step (e : Event) (c : Component) : Component :=
  match e with
  | Click => handleClick c
  | Elapse ms => setNow (now c + ms) c
  | TimerFires =>
      match timers c with
      | t :: l =>
          if (due t <=? now c)%nat then runCallback (callback t) (setTimers l c)
          else c
      | [] => c
      end
  | Frame => setRefs (useFrame (isPressed c) (refs c)) c
  | SoundEnds => setSound (option_map onEnded (sound c)) c
  | AudioLoads result rate random =>
      setSound (option_map (audioLoaded result rate random) (sound c)) c
  end.

Definition run (es : list Event) (c : Component) : Component :=
  fold_left (fun c e => step e c) es c.

(** The component as mounted: idle, nothing scheduled, no click reported. *)
Definition mounted (a : option Audio) (r : Refs) (t0 : nat) : Component :=
  mkComponent false a r t0 [] 0.


(** Idle with nothing scheduled. *)
Definition settled (c : Component) : Prop :=
  isPressed c = false /\ timers c = [].

(** Pressed by the click made at time [t], the [k]-th to get through: the
    release is scheduled for [t + 200], and the sound for [t + 10] unless
    that timeout has fired or there was no [Audio] to play. *)
Definition pressedSince (t k : nat) (c : Component) : Prop :=
  isPressed c = true /\ onClickCalls c = k /\ (t <= now c)%nat /\
  (timers c = [mkTimer (t + 200) ReleaseKey] \/
   timers c = [mkTimer (t + 10) PlaySound; mkTimer (t + 200) ReleaseKey]).

Definition wellFormed (c : Component) : Prop :=
  settled c \/ exists t k, pressedSince t k c.

(** The states the host can bring a mounted component into. *)
Definition reachable (c : Component) : Prop :=
  exists (a : option Audio) (r : Refs) (t0 : nat) (es : list Event),
    c = run es (mounted a r t0).

(** The clicks of [es] that find the key idle, run from [c]. *)
Fixpoint activations (es : list Event) (c : Component) : nat :=
  match es with
  | [] => 0
  | e :: es' =>
      (match e with
       | Click => if isPressed c then 0 else 1
       | _ => 0
       end + activations es' (step e c))%nat
  end.

(** The attack of the fallback click gets louder from sample to sample. *)
Definition attackStrictlyIncreasing (len : nat) : Prop :=
  forall i j : nat,
    (i < j)%nat -> ofNat j < ofNat len * 0.1 -> envelope len i < envelope len j.

(** ** Materials *)

Inductive TextureType : Type := matte | glossy | carbon.

(** A bump texture once loaded: where it came from and its tiling
    ([repeat.set(u, v)]; both wrap modes are [RepeatWrapping]). *)
Record Texture : Type := mkTexture {
  url : string;
  repeat : Q * Q
}.

Record MeshStandardMaterial : Type := mkMeshStandardMaterial {
  color : Z;
  roughness : Q;
  metalness : Q;
  bumpMap : option Texture;
  bumpScale : Q
}.

(** An entry of [materials]; the source asks [instanceof
    MeshStandardMaterial] before it touches one. *)
Inductive Material : Type :=
| Standard (m : MeshStandardMaterial)
| Other.

(** The variables of the [switch (textureType)]. *)
Record Finish : Type := mkFinish {
  finish_roughness : Q;
  finish_metalness : Q;
  finish_bumpScale : Q;
  finish_bumpMapUrl : string
}.

Definition keycapColor : Z := 0x0a0a0a.

Definition finishOf (textureType : TextureType) : Finish :=
  match textureType with
  | glossy => mkFinish 0.1 0.5 0.001
      "https://images.unsplash.com/photo-1615400014497-55726234cccb?ixlib=rb-4.0.3&q=80&fm=jpg&crop=entropy&cs=tinysrgb&w=400"
  | carbon => mkFinish 0.4 0.3 0.008
      "https://images.unsplash.com/photo-1598168413264-09c2f0b9a93c?ixlib=rb-4.0.3&q=80&fm=jpg&crop=entropy&cs=tinysrgb&w=400"
  | matte => mkFinish 0.8 0.1 0.002
      "https://images.unsplash.com/photo-1541183663064-7a32e7035c94?ixlib=rb-4.0.3&q=80&fm=jpg&crop=entropy&cs=tinysrgb&w=400"
  end.

(** [if (textureType === 'carbon') repeat.set(6, 6) else repeat.set(3, 3)] *)
Definition repeatOf (textureType : TextureType) : Q * Q :=
  match textureType with
  | carbon => (6, 6)
  | _ => (3, 3)
  end.

(** The texture handed to the [onLoad] callback, after the callback has
    set its wrapping and tiling. *)
Definition bumpMapOf (textureType : TextureType) : Texture :=
  mkTexture (finish_bumpMapUrl (finishOf textureType)) (repeatOf textureType).

(** [String.prototype.toLowerCase] on ASCII letters. *)
Definition lowerAscii (c : ascii) : ascii :=
  let n := nat_of_ascii c in
  if ((65 <=? n) && (n <=? 90))%nat then ascii_of_nat (n + 32) else c.

Fixpoint toLowerCase (s : string) : string :=
  match s with
  | EmptyString => EmptyString
  | String c s' => String (lowerAscii c) (toLowerCase s')
  end.

(** [s.includes(needle)] *)
Fixpoint includes (s needle : string) : bool :=
  if String.prefix needle s then true
  else match s with
       | EmptyString => false
       | String _ s' => includes s' needle
       end.

Definition isLetterMaterial (key : string) : bool :=
  includes (toLowerCase key) "letter"
  || includes (toLowerCase key) "text"
  || includes (toLowerCase key) "c".

(** The body of the [forEach] over [Object.entries(materials)]. *)
Definition customize (textureType : TextureType) (bump : Texture)
           (entry : string * Material) : string * Material :=
  let (key, material) := entry in
  match material with
  | Standard m =>
      if isLetterMaterial key
      then (key, Standard (mkMeshStandardMaterial 0xffffff 0.1 0.2 None (bumpScale m)))
      else (key, Standard (mkMeshStandardMaterial keycapColor
                             (finish_roughness (finishOf textureType))
                             (finish_metalness (finishOf textureType))
                             (Some bump)
                             (finish_bumpScale (finishOf textureType))))
  | Other => (key, Other)
  end.

(** The material effect.  It returns at once without [materials]; the
    materials are only visited in the [onLoad] callback of
    [textureLoader.load], so [loaded = false] (the texture never arrives)
    leaves them as they are. *)
Definition materialEffect (textureType : TextureType) (loaded : bool)
           (materials : option (list (string * Material)))
  : option (list (string * Material)) :=
  match materials with
  | None => None
  | Some ms =>
      if loaded
      then Some (map (customize textureType (bumpMapOf textureType)) ms)
      else Some ms
  end.




(** ** Rendering *)

(** A node of the loaded model, as far as the JSX looks at it. *)
Record Node : Type := mkNode { isMesh : bool }.

Record GLTFResult : Type := mkGLTFResult {
  nodes : option (list (string * Node));
  materials : option (list (string * Material))
}.

Inductive Child : Type :=
| ShadowPlane                 (* the <mesh ref={shadowRef}> *)
| NodeMesh (key : string)     (* a <mesh key={key} name={key}> *)
| NullChild.                  (* [return null] inside the map *)

Inductive ReactNode : Type :=
| null
| GroupElement (children : list Child).

(** A call either returns or throws. *)
Inductive Outcome (A : Type) : Type :=
| Returned (a : A)
| Threw (error : string).
Arguments Returned {A} a.
Arguments Threw {A} error.

(** [Object.entries] throws a [TypeError] on [undefined] and [null]. *)
Definition Object_entries {A : Type} (o : option (list (string * A)))
  : Outcome (list (string * A)) :=
  match o with
  | Some l => Returned l
  | None => Threw "TypeError: Cannot convert undefined or null to object"
  end.

Definition renderNode (entry : string * Node) : Child :=
  if isMesh (snd entry) then NodeMesh (fst entry) else NullChild.

(** The JSX of the [return]: the shadow plane, then the nodes. *)
Definition renderGroup (gltf : GLTFResult) : Outcome ReactNode :=
  match Object_entries (nodes gltf) with
  | Returned entries => Returned (GroupElement (ShadowPlane :: map renderNode entries))
  | Threw e => Threw e
  end.

(** The end of the component function: the lines written by
    [console.error], and what the call does.
<<
  if (!nodes) { console.error("Failed to load keycap model"); return null; }
  return ( <group ...> ... </group> );
>> *)
Definition KeycapModel (gltf : GLTFResult) : list string * Outcome ReactNode :=
  match nodes gltf with
  | None => (["Failed to load keycap model"%string], Returned null)
  | Some _ => ([], renderGroup gltf)
  end.

(** React sets a ref when the element that carries it is mounted; [g] and
    [s] are the objects it creates for the group and the shadow plane. *)
Definition attachRefs (out : Outcome ReactNode) (g : Object3D) (s : Mesh) : Refs :=
  match out with
  | Returned (GroupElement _) => mkRefs (Some g) (Some s)
  | _ => mkRefs None None
  end.

(** ** The click handler as a closure *)

(** What [handleClick] does once past its guard. *)
Definition press (c : Component) : Component :=
  let c1 := setIsPressed true c in
  let c2 := onClick c1 in
  let c3 :=
    match sound c2 with
    | Some a =>
        let c' := if isPlaying a then setSound (Some (stop a)) c2 else c2 in
        setTimeout PlaySound 10 c'
    | None => c2
    end in
  setTimeout ReleaseKey 200 c3.

(** [handleClick] is built anew by every render and tests the [isPressed]
    of that render, a [const]: [seen] is that value, and [handleClick] above
    is the handler of a render that has seen the current state. *)
Definition handleClickWith (seen : bool) (c : Component) : Component :=
  if seen then c else press c.

(** ** The component under React *)

(** The component together with the [isPressed] that the last render read,
    the [const] that [handleClick] and the frame callback of that render
    close over.  [setIsPressed] changes [isPressed (component m)] and
    leaves [seen m] as it is until React renders again. *)
Record Rendered : Type := mkRendered {
  component : Component;
  seen : bool
}.

Inductive HostEvent : Type :=
| Render                (* React runs the component function again *)
| Deliver (e : Event).  (* the host calls into the callbacks of the last render *)

Definition hostStep (h : HostEvent) (m : Rendered) : Rendered :=
  match h with
  | Render => mkRendered (component m) (isPressed (component m))
  | Deliver Click => mkRendered (handleClickWith (seen m) (component m)) (seen m)
  | Deliver Frame =>
      mkRendered (setRefs (useFrame (seen m) (refs (component m))) (component m)) (seen m)
  | Deliver e => mkRendered (step e (component m)) (seen m)
  end.

Definition hostRun (hs : list HostEvent) (m : Rendered) : Rendered :=
  fold_left (fun m h => hostStep h m) hs m.

(** The first render of a mounted component. *)
Definition firstRender (a : option Audio) (r : Refs) (t0 : nat) : Rendered :=
  mkRendered (mounted a r t0) false.

(** The last render has read the state as it is now. *)
Definition synced (m : Rendered) : Prop := seen m = isPressed (component m).

(** Every click and every frame of [hs] is delivered to callbacks that
    have read the state as it is: React has rendered again since
    [isPressed] last changed. *)
Fixpoint upToDate (hs : list HostEvent) (m : Rendered) : Prop :=
  match hs with
  | [] => True
  | h :: hs' =>
      match h with
      | Deliver Click | Deliver Frame => synced m
      | _ => True
      end /\ upToDate hs' (hostStep h m)
  end.

(** The events of [hs], the renders left out. *)
Fixpoint delivered (hs : list HostEvent) : list Event :=
  match hs with
  | [] => []
  | Render :: hs' => delivered hs'
  | Deliver e :: hs' => e :: delivered hs'
  end.


Definition keptUpToDate (m : Rendered) : Prop :=
  exists (a : option Audio) (r : Refs) (t0 : nat) (hs : list HostEvent),
    upToDate hs (firstRender a r t0) /\ m = hostRun hs (firstRender a r t0).



(** A click and the render after it, [n] frames, [d] ms and the due
    timeouts and the render after them, [k] frames. *)
Definition hostCycle (n d k : nat) : list HostEvent :=
  [Deliver Click; Render] ++ List.repeat (Deliver Frame) n
    ++ [Deliver (Elapse d); Deliver TimerFires; Deliver TimerFires; Render]
    ++ List.repeat (Deliver Frame) k.

(** The pending timeouts that start the sound. *)
Definition pendingPlays (c : Component) : nat :=
  List.length
    (filter (fun t => match callback t with PlaySound => true | ReleaseKey => false end)
            (timers c)).

(** The calls of [play()] made, those still to come, less the clicks
    counted, and the calls of [stop()] against the clicks counted. *)
Definition soundBalance (a0 : Audio) (c0 c : Component) : Prop :=
  exists a : Audio,
    sound c = Some a /\
    (playCalls a + pendingPlays c + onClickCalls c0
     = playCalls a0 + pendingPlays c0 + onClickCalls c)%nat /\
    (stopCalls a + onClickCalls c0 <= stopCalls a0 + onClickCalls c)%nat.

(** ** The camera effect *)

(** The part of the camera effect that places the keycap:
<<
  if (group.current) {
    group.current.position.z = 0;
    group.current.position.y = 0.2;
    group.current.scale.set(1, 1, 1);
  }
>> *)
Definition cameraEffect (r : Refs) : Refs :=
  match group r with
  | None => r
  | Some g =>
      let g1 := with_position (Vector3.set_z 0) g in
      let g2 := with_position (Vector3.set_y 0.2) g1 in
      mkRefs (Some (with_scale (Vector3.set 1 1 1) g2)) (shadowRef r)
  end.

(** ** The travel of the keycap and of its shadow *)

Definition inTravel (g : Object3D) : Prop :=
  (0.65 <= Vector3.z (scale g) /\ Vector3.z (scale g) <= 1) /\
  (-0.15 <= Vector3.z (position g) /\ Vector3.z (position g) <= 0) /\
  (0 <= Vector3.x (rotation g) /\ Vector3.x (rotation g) <= 0.03).

Definition shadowInRange (s : Mesh) : Prop :=
  (0.9 <= Vector3.x (scale (object3D s)) /\ Vector3.x (scale (object3D s)) <= 1) /\
  (0.9 <= Vector3.y (scale (object3D s)) /\ Vector3.y (scale (object3D s)) <= 1) /\
  (-0.03 <= Vector3.z (position (object3D s)) /\ Vector3.z (position (object3D s)) <= 0) /\
  (0.4 <= opacity (material s) /\ opacity (material s) <= 0.6).

Definition refsInRange (r : Refs) : Prop :=
  match group r with Some g => inTravel g | None => True end /\
  match shadowRef r with Some s => shadowInRange s | None => True end.

(** An eased quantity has come no farther from its target, and has not
    crossed it. *)
Definition noFarther (q : Q * Q * Q * Q) : Prop :=
  let '(target, _, v, v') := q in towards target v v'.

(** A press of [m] frames, the release after [d] ms, [n] idle frames. *)
Definition pressCycle (m d n : nat) : list Event :=
  Click :: List.repeat Frame m
        ++ [Elapse d; TimerFires; TimerFires]
        ++ List.repeat Frame n.

(** ** The scene *)

(** [clickCount] as React holds it: the value of the last render and the
    updaters queued since. *)
Record Scene : Type := mkScene {
  clickCount : nat;
  updates : list (nat -> nat)
}.

Definition setClickCount (f : nat -> nat) (s : Scene) : Scene :=
  mkScene (clickCount s) (updates s ++ [f]).

(** [handleKeycapClick]: [setClickCount(prev => prev + 1)] *)
Definition handleKeycapClick (s : Scene) : Scene :=
  setClickCount (fun prev => (prev + 1)%nat) s.

(** The next render runs the queued updaters in order. *)
Definition renderScene (s : Scene) : Scene :=
  mkScene (fold_left (fun n f => f n) (updates s) (clickCount s)) [].

(** ** More on what is rendered *)

(** The keys of the meshes among the children, in order. *)
Definition meshKeys (children : list Child) : list string :=
  flat_map (fun ch => match ch with NodeMesh key => [key] | _ => [] end) children.

Definition childrenOf (node : ReactNode) : list Child :=
  match node with
  | null => []
  | GroupElement children => children
  end.

(** The character is a [c], in either case. *)
Definition isC (ch : ascii) : bool :=
  Ascii.eqb ch "c" || Ascii.eqb ch "C".

Fixpoint hasC (s : string) : bool :=
  match s with
  | EmptyString => false
  | String ch s' => isC ch || hasC s'
  end.

(** ** The scalar updates on IEEE doubles *)

Module Binary64.
Import PrimFloat.

(** [Math.max] and [Math.min] on two numbers, neither of them NaN. *)
Definition Math_max (a b : float) : float := if (a <? b)%float then b else a.
Definition Math_min (a b : float) : float := if (b <? a)%float then b else a.

Definition minScaleZ : float := 0.65%float.
Definition minPositionZ : float := (-0.15)%float.
Definition maxRotX : float := 0.03%float.

(** The three assignments of the pressed branch. *)
Definition pressScale (v : float) : float := Math_max (v - 0.04)%float minScaleZ.
Definition pressPosition (v : float) : float := Math_max (v - 0.02)%float minPositionZ.
Definition pressTilt (v : float) : float := Math_min (v + 0.005)%float maxRotX.

Definition targetZ : float := 0%float.
Definition targetRotX : float := 0%float.
Definition targetScaleZ : float := 1%float.
Definition restOpacity : float := 0.4%float.

(** [value += (target - value) * rate] *)
Definition ease (target value rate : float) : float :=
  (value + (target - value) * rate)%float.

(** The assignments of the idle branch. *)
Definition releaseScale (v : float) : float := ease targetScaleZ v 0.1%float.
Definition releasePosition (v : float) : float := ease targetZ v 0.12%float.
Definition releaseTilt (v : float) : float := ease targetRotX v 0.15%float.
Definition releaseShadowScale (v : float) : float := ease 1%float v 0.1%float.
Definition releaseShadowPosition (v : float) : float := ease 0%float v 0.1%float.
Definition releaseOpacity (v : float) : float := ease 0.4%float v 0.1%float.

Definition below (a b : float) : bool := (a <? b)%float.
End Binary64.

(** ** Proof automation *)

(** Name every [Qmax] and [Qmin] in sight by its defining cases and leave
    the rest to linear arithmetic. *)
Ltac minmax :=
  unfold Math_max, Math_min in *;
  repeat match goal with
    | |- context [Qmax ?a ?b] =>
        let H := fresh "Hmax" in
        pose proof (Q.max_spec a b) as H; generalize dependent (Qmax a b); intros
    | |- context [Qmin ?a ?b] =>
        let H := fresh "Hmin" in
        pose proof (Q.min_spec a b) as H; generalize dependent (Qmin a b); intros
    | _ : context [Qmax ?a ?b] |- _ =>
        let H := fresh "Hmax" in
        pose proof (Q.max_spec a b) as H; generalize dependent (Qmax a b); intros
    | _ : context [Qmin ?a ?b] |- _ =>
        let H := fresh "Hmin" in
        pose proof (Q.min_spec a b) as H; generalize dependent (Qmin a b); intros
    end;
  repeat match goal with
    | H : _ \/ _ |- _ => destruct H as [[? ?] | [? ?]]
    end;
  lra.

(** Evaluate the [ofNat] of a numeral in [H]. *)
Ltac literal H :=
  repeat match type of H with
    | context [ofNat (S ?k)] =>
        let v := eval vm_compute in (ofNat (S k)) in
        change (ofNat (S k)) with v in H
    end.

(** Open the component and the state predicates, compute, and close the
    pieces. *)
Ltac fields c :=
  destruct c; unfold pressedSince, settled in *; cbn in *;
  repeat match goal with H : _ /\ _ |- _ => destruct H end;
  subst; repeat split; auto; try lia; try discriminate.

(** Decide the comparisons of due times against the clock. *)
Ltac clock :=
  repeat match goal with
    | |- context [(?a <=? ?b)%nat] =>
        destruct (Nat.leb_spec a b); [|lia]
    end.

(** * Properties *)

(** ** The frame callback, field by field *)

Section FrameFields.
Variable g : Object3D.
Variable s : Mesh.

Lemma pressGroup_scale_z :
  Vector3.z (scale (pressGroup g)) = Qmax (Vector3.z (scale g) - 0.04) 0.65.
Proof. reflexivity. Qed.

Lemma pressGroup_position_z :
  Vector3.z (position (pressGroup g)) = Qmax (Vector3.z (position g) - 0.02) (-0.15).
Proof. reflexivity. Qed.

Lemma pressGroup_rotation_x :
  Vector3.x (rotation (pressGroup g)) = Qmin (Vector3.x (rotation g) + 0.005) 0.03.
Proof. reflexivity. Qed.

Lemma releaseGroup_scale_z :
  Vector3.z (scale (releaseGroup g)) = ease targetScaleZ (Vector3.z (scale g)) scaleSpeed.
Proof. reflexivity. Qed.

Lemma releaseGroup_position_z :
  Vector3.z (position (releaseGroup g)) = ease targetZ (Vector3.z (position g)) positionSpeed.
Proof. reflexivity. Qed.

Lemma releaseGroup_rotation_x :
  Vector3.x (rotation (releaseGroup g)) = ease targetRotX (Vector3.x (rotation g)) rotationSpeed.
Proof. reflexivity. Qed.

Lemma pressGroup_keepsOffAxes : keepsOffAxes g (pressGroup g).
Proof. repeat split. Qed.

Lemma releaseGroup_keepsOffAxes : keepsOffAxes g (releaseGroup g).
Proof. repeat split. Qed.

Lemma pressShadow_keepsPlacement : keepsShadowPlacement s (pressShadow s).
Proof. repeat split. Qed.

Lemma releaseShadow_keepsPlacement : keepsShadowPlacement s (releaseShadow s).
Proof. repeat split. Qed.
End FrameFields.

Lemma useFrame_group (b : bool) (r : Refs) (g : Object3D) :
  group r = Some g ->
  group (useFrame b r) = Some (if b then pressGroup g else releaseGroup g).
Proof. unfold useFrame; intros ->; destruct b; reflexivity. Qed.

Lemma useFrame_shadowRef (b : bool) (r : Refs) (g : Object3D) :
  group r = Some g ->
  shadowRef (useFrame b r)
  = option_map (if b then pressShadow else releaseShadow) (shadowRef r).
Proof. unfold useFrame; intros ->; destruct b; reflexivity. Qed.

Lemma useFrame_unmounted (b : bool) (r : Refs) :
  group r = None -> useFrame b r = r.
Proof. unfold useFrame; intros ->; reflexivity. Qed.

Lemma frames_S (b : bool) (n : nat) (r : Refs) :
  frames b (S n) r = useFrame b (frames b n r).
Proof. reflexivity. Qed.

Lemma frames_group_pressed (n : nat) (r : Refs) (g : Object3D) :
  group r = Some g ->
  group (frames true n r) = Some (Nat.iter n pressGroup g).
Proof.
  intros Hg; induction n as [|n IH]; [exact Hg|].
  rewrite frames_S, (useFrame_group true _ _ IH); reflexivity.
Qed.

(** C8.  A frame, in either press state, leaves position.x, position.y,
    rotation.y, rotation.z, scale.x and scale.y of the keycap as they were,
    and of the shadow plane it changes nothing but its scale, its
    position.z and its opacity; a ref that is unset stays unset. *)
Theorem useFrame_frame (isPressed : bool) (r : Refs) :
  bothRefs keepsOffAxes (group r) (group (useFrame isPressed r)) /\
  bothRefs keepsShadowPlacement (shadowRef r) (shadowRef (useFrame isPressed r)).
Proof.
  unfold useFrame.
  destruct (group r) as [g|] eqn:Hg.
  - destruct isPressed; cbn [group shadowRef bothRefs]; split;
      try apply pressGroup_keepsOffAxes; try apply releaseGroup_keepsOffAxes;
      destruct (shadowRef r) as [s|]; cbn [option_map bothRefs]; trivial;
      try apply pressShadow_keepsPlacement; apply releaseShadow_keepsPlacement.
  - rewrite Hg; cbn [bothRefs]; split; [trivial|].
    destruct (shadowRef r); cbn [bothRefs]; [repeat split | trivial].
Qed.

(** ** Arithmetic of the two update rules *)

Lemma ofNat_S (n : nat) : ofNat (S n) == ofNat n + 1.
Proof.
  unfold ofNat. rewrite Nat2Z.inj_succ. unfold Z.succ.
  rewrite inject_Z_plus. reflexivity.
Qed.

Lemma ofNat_le (a b : nat) : (a <= b)%nat -> ofNat a <= ofNat b.
Proof. intros H. unfold ofNat. rewrite <- Zle_Qle. lia. Qed.

Lemma ofNat_lt (a b : nat) : (a < b)%nat -> ofNat a + 1 <= ofNat b.
Proof. intros H. rewrite <- ofNat_S. apply ofNat_le. lia. Qed.

Lemma ofNat_nonneg (n : nat) : 0 <= ofNat n.
Proof. apply (ofNat_le 0 n). lia. Qed.

(** [n] pressed frames from the rest pose, in closed form. *)
Section PressedRun.
Variable g : Object3D.
Hypothesis rest : atRest g.

Lemma pressed_scale_z (n : nat) :
  Vector3.z (scale (Nat.iter n pressGroup g)) == Qmax (1 - 0.04 * ofNat n) 0.65.
Proof.
  destruct rest as (_ & _ & Hs).
  induction n as [|n IH].
  - change (Nat.iter 0 pressGroup g) with g. rewrite Hs. change (ofNat 0) with 0. minmax.
  - rewrite Nat.iter_succ, pressGroup_scale_z, (ofNat_S n).
    revert IH. generalize (Vector3.z (scale (Nat.iter n pressGroup g))).
    intros v IH. minmax.
Qed.

Lemma pressed_position_z (n : nat) :
  Vector3.z (position (Nat.iter n pressGroup g)) == Qmax (0 - 0.02 * ofNat n) (-0.15).
Proof.
  destruct rest as (Hp & _ & _).
  induction n as [|n IH].
  - change (Nat.iter 0 pressGroup g) with g. rewrite Hp. change (ofNat 0) with 0. minmax.
  - rewrite Nat.iter_succ, pressGroup_position_z, (ofNat_S n).
    revert IH. generalize (Vector3.z (position (Nat.iter n pressGroup g))).
    intros v IH. minmax.
Qed.

Lemma pressed_rotation_x (n : nat) :
  Vector3.x (rotation (Nat.iter n pressGroup g)) == Qmin (0.005 * ofNat n) 0.03.
Proof.
  destruct rest as (_ & Hr & _).
  induction n as [|n IH].
  - change (Nat.iter 0 pressGroup g) with g. rewrite Hr. change (ofNat 0) with 0. minmax.
  - rewrite Nat.iter_succ, pressGroup_rotation_x, (ofNat_S n).
    revert IH. generalize (Vector3.x (rotation (Nat.iter n pressGroup g))).
    intros v IH. minmax.
Qed.
End PressedRun.

(** C2.  Pressed frames from the rest pose.  After [n] frames the keycap
    [gn] has scale.z = max(1 - 0.04 n, 0.65), position.z =
    max(-0.02 n, -0.15) and rotation.x = min(0.005 n, 0.03), and the next
    frame takes it to [gn'] by the clamped steps of 0.04, 0.02 and 0.005.
    So scale.z and position.z never increase and stay at or above 0.65 and
    -0.15, the tilt never decreases and stays at or below 0.03; each step
    is the full 0.04, 0.02, 0.005 until the clamp cuts in; the bounds are
    reached after 9, 8 and 6 frames and kept from then on. *)
Theorem pressed_from_rest (r : Refs) (g : Object3D) (n : nat) :
  group r = Some g -> atRest g ->
  exists gn gn' : Object3D,
    group (frames true n r) = Some gn /\
    group (frames true (S n) r) = Some gn' /\
    (Vector3.z (scale gn') == Math_max (Vector3.z (scale gn) - 0.04) 0.65 /\
     Vector3.z (position gn') == Math_max (Vector3.z (position gn) - 0.02) (-0.15) /\
     Vector3.x (rotation gn') == Math_min (Vector3.x (rotation gn) + 0.005) 0.03) /\
    (Vector3.z (scale gn) == Qmax (1 - 0.04 * ofNat n) 0.65 /\
     Vector3.z (position gn) == Qmax (0 - 0.02 * ofNat n) (-0.15) /\
     Vector3.x (rotation gn) == Qmin (0.005 * ofNat n) 0.03) /\
    (Vector3.z (scale gn') <= Vector3.z (scale gn) /\
     Vector3.z (position gn') <= Vector3.z (position gn) /\
     Vector3.x (rotation gn) <= Vector3.x (rotation gn')) /\
    (0.65 <= Vector3.z (scale gn) /\
     -0.15 <= Vector3.z (position gn) /\
     Vector3.x (rotation gn) <= 0.03) /\
    (((n < 8)%nat -> Vector3.z (scale gn') == Vector3.z (scale gn) - 0.04) /\
     ((n < 7)%nat -> Vector3.z (position gn') == Vector3.z (position gn) - 0.02) /\
     ((n < 6)%nat -> Vector3.x (rotation gn') == Vector3.x (rotation gn) + 0.005)) /\
    (((9 <= n)%nat -> Vector3.z (scale gn) == 0.65) /\
     ((8 <= n)%nat -> Vector3.z (position gn) == -0.15) /\
     ((6 <= n)%nat -> Vector3.x (rotation gn) == 0.03)).
Proof.
  intros Hg Hrest.
  exists (Nat.iter n pressGroup g), (Nat.iter (S n) pressGroup g).
  split; [apply frames_group_pressed, Hg|].
  split; [apply frames_group_pressed, Hg|].
  rewrite Nat.iter_succ.
  rewrite pressGroup_scale_z, pressGroup_position_z, pressGroup_rotation_x.
  pose proof (pressed_scale_z g Hrest n) as Hs.
  pose proof (pressed_position_z g Hrest n) as Hp.
  pose proof (pressed_rotation_x g Hrest n) as Hr.
  pose proof (ofNat_nonneg n) as Hn.
  revert Hs Hp Hr.
  generalize (Vector3.z (scale (Nat.iter n pressGroup g))) as s.
  generalize (Vector3.z (position (Nat.iter n pressGroup g))) as p.
  generalize (Vector3.x (rotation (Nat.iter n pressGroup g))) as t.
  intros t p s Hs Hp Hr.
  split; [repeat split; reflexivity|].
  split; [repeat split; assumption|].
  split; [repeat split; minmax|].
  split; [repeat split; minmax|].
  split; [repeat split; intros Hlt; apply ofNat_lt in Hlt; literal Hlt; minmax|].
  repeat split; intros Hle; apply ofNat_le in Hle; literal Hle; minmax.
Qed.

(** C10.  One pressed frame from any pose: scale.z is at least 0.65,
    position.z at least -0.15 and rotation.x at most 0.03 afterwards, and a
    value that was at or past its bound (or within one step of it) lands on
    the bound. *)
Theorem pressed_clamps_absorbing (r : Refs) (g : Object3D) :
  group r = Some g ->
  exists g' : Object3D,
    group (useFrame true r) = Some g' /\
    (0.65 <= Vector3.z (scale g') /\
     -0.15 <= Vector3.z (position g') /\
     Vector3.x (rotation g') <= 0.03) /\
    ((Vector3.z (scale g) <= 0.65 + 0.04 -> Vector3.z (scale g') == 0.65) /\
     (Vector3.z (position g) <= -0.15 + 0.02 -> Vector3.z (position g') == -0.15) /\
     (0.03 - 0.005 <= Vector3.x (rotation g) -> Vector3.x (rotation g') == 0.03)).
Proof.
  intros Hg. exists (pressGroup g).
  split; [apply (useFrame_group true _ _ Hg)|].
  rewrite pressGroup_scale_z, pressGroup_position_z, pressGroup_rotation_x.
  split; [repeat split; minmax | repeat split; intros H; minmax].
Qed.

(** A pose past all three bounds. *)
Lemma pressed_clamps_absorbing_witness :
  let g := mkObject3D (Vector3.mk 0 0.2 (-1)) (Vector3.mk 0.2 0 0) (Vector3.mk 1 1 0.5) in
  exists g' : Object3D,
    group (useFrame true (mkRefs (Some g) None)) = Some g' /\
    (0.65 <= Vector3.z (scale g') /\
     -0.15 <= Vector3.z (position g') /\
     Vector3.x (rotation g') <= 0.03) /\
    ((Vector3.z (scale g) <= 0.65 + 0.04 -> Vector3.z (scale g') == 0.65) /\
     (Vector3.z (position g) <= -0.15 + 0.02 -> Vector3.z (position g') == -0.15) /\
     (0.03 - 0.005 <= Vector3.x (rotation g) -> Vector3.x (rotation g') == 0.03)).
Proof.
  intros g.
  apply (pressed_clamps_absorbing (mkRefs (Some g) None) g).
  reflexivity.
Defined.

Lemma restObject_atRest : atRest restObject.
Proof. repeat split. Qed.

Lemma restShadow_atRest : shadowAtRest restShadow.
Proof. repeat split. Qed.

(** Ten pressed frames from the rest pose. *)
Lemma pressed_from_rest_witness :
  group restRefs = Some restObject /\ atRest restObject /\
  exists gn gn' : Object3D,
    group (frames true 10 restRefs) = Some gn /\
    group (frames true 11 restRefs) = Some gn' /\
    (Vector3.z (scale gn') == Math_max (Vector3.z (scale gn) - 0.04) 0.65 /\
     Vector3.z (position gn') == Math_max (Vector3.z (position gn) - 0.02) (-0.15) /\
     Vector3.x (rotation gn') == Math_min (Vector3.x (rotation gn) + 0.005) 0.03) /\
    (Vector3.z (scale gn) == Qmax (1 - 0.04 * ofNat 10) 0.65 /\
     Vector3.z (position gn) == Qmax (0 - 0.02 * ofNat 10) (-0.15) /\
     Vector3.x (rotation gn) == Qmin (0.005 * ofNat 10) 0.03) /\
    (Vector3.z (scale gn') <= Vector3.z (scale gn) /\
     Vector3.z (position gn') <= Vector3.z (position gn) /\
     Vector3.x (rotation gn) <= Vector3.x (rotation gn')) /\
    (0.65 <= Vector3.z (scale gn) /\
     -0.15 <= Vector3.z (position gn) /\
     Vector3.x (rotation gn) <= 0.03) /\
    (((10 < 8)%nat -> Vector3.z (scale gn') == Vector3.z (scale gn) - 0.04) /\
     ((10 < 7)%nat -> Vector3.z (position gn') == Vector3.z (position gn) - 0.02) /\
     ((10 < 6)%nat -> Vector3.x (rotation gn') == Vector3.x (rotation gn) + 0.005)) /\
    (((9 <= 10)%nat -> Vector3.z (scale gn) == 0.65) /\
     ((8 <= 10)%nat -> Vector3.z (position gn) == -0.15) /\
     ((6 <= 10)%nat -> Vector3.x (rotation gn) == 0.03)).
Proof.
  split; [reflexivity|]. split; [exact restObject_atRest|].
  apply (pressed_from_rest restRefs restObject 10);
    [reflexivity | exact restObject_atRest].
Defined.

(** ** Easing *)

Lemma ease_at_target (target rate v : Q) : v == target -> ease target v rate == v.
Proof. unfold ease. intros ->. ring. Qed.

(** With a rate between 0 and 1 the eased value lies between the old
    value and the target. *)
Lemma ease_towards (target rate v w : Q) :
  0 < rate -> rate < 1 -> towards target w v -> towards target w (ease target v rate).
Proof.
  intros H0 H1 [Habs Hside]. unfold towards, ease.
  setoid_replace (target - (v + (target - v) * rate))
    with ((1 - rate) * (target - v)) by ring.
  split.
  - rewrite Qabs_Qmult, (Qabs_pos (1 - rate)) by lra.
    pose proof (Qabs_nonneg (target - v)) as Hn.
    assert (0 <= rate * Qabs (target - v)) by (apply Qmult_le_0_compat; lra).
    lra.
  - setoid_replace ((1 - rate) * (target - v) * (target - w))
      with ((1 - rate) * ((target - v) * (target - w))) by ring.
    apply Qmult_le_0_compat; lra.
Qed.

Lemma towards_refl (target v : Q) : towards target v v.
Proof.
  split; [apply Qle_refl|].
  destruct (Q_dec (target - v) 0) as [[Hlt|Hgt]|Heq].
  - setoid_replace ((target - v) * (target - v))
      with ((- (target - v)) * (- (target - v))) by ring.
    apply Qmult_le_0_compat; lra.
  - apply Qmult_le_0_compat; lra.
  - rewrite Heq. lra.
Qed.

Lemma ease_approaches (target rate v : Q) :
  0 < rate -> rate < 1 -> approaches (target, rate, v, ease target v rate).
Proof.
  intros H0 H1. unfold approaches.
  split; [reflexivity|].
  split; [apply ease_towards; [assumption | assumption | apply towards_refl]|].
  split.
  - intros Hmoved. unfold ease in *.
    assert (Hne : ~ target - v == 0).
    { intros Hz. apply Hmoved. rewrite Hz. ring. }
    assert (Hpos : 0 < Qabs (target - v)).
    { apply Qabs_case; intros Hc;
        (destruct (Q_dec (target - v) 0) as [[Hlt|Hgt]|Hz];
         [lra | lra | exfalso; apply Hne; exact Hz]). }
    setoid_replace (target - (v + (target - v) * rate))
      with ((1 - rate) * (target - v)) by ring.
    rewrite Qabs_Qmult, (Qabs_pos (1 - rate)) by lra.
    assert (0 < rate * Qabs (target - v)) by (apply Qmult_lt_0_compat; assumption).
    lra.
  - intros Heq. apply ease_at_target, Heq.
Qed.

(** C9.  The rest pose is a fixed point of the idle frame: with position.z
    = 0, rotation.x = 0, scale.z = 1 and the shadow at scale (1, 1),
    position.z = 0, opacity 0.4, every number of the pose is the same
    after the frame as before. *)
Theorem rest_is_fixed_point (r : Refs) :
  refsAtRest r -> sameRefs (useFrame false r) r.
Proof.
  intros [Hg Hs]. unfold sameRefs, useFrame.
  destruct (group r) as [g|] eqn:Eg.
  - cbn [group shadowRef bothRefs]. split.
    + destruct Hg as (Hp & Hr & Hsc).
      unfold sameObject, sameVector.
      rewrite releaseGroup_position_z, releaseGroup_rotation_x, releaseGroup_scale_z.
      rewrite (ease_at_target _ _ _ Hp), (ease_at_target _ _ _ Hr), (ease_at_target _ _ _ Hsc).
      repeat split; reflexivity.
    + destruct (shadowRef r) as [s|]; cbn [option_map bothRefs]; [|trivial].
      destruct Hs as (Hx & Hy & Hz & Ho).
      unfold sameMesh, sameObject, sameVector. cbn.
      rewrite (ease_at_target _ _ _ Hx), (ease_at_target _ _ _ Hy),
        (ease_at_target _ _ _ Hz), (ease_at_target _ _ _ Ho).
      repeat split; reflexivity.
  - rewrite Eg. cbn [bothRefs]. split; [trivial|].
    destruct (shadowRef r); cbn [bothRefs]; [|trivial].
    repeat split; reflexivity.
Qed.

Lemma restRefs_atRest : refsAtRest restRefs.
Proof. split; [exact restObject_atRest | exact restShadow_atRest]. Qed.

Lemma rest_is_fixed_point_witness :
  refsAtRest restRefs /\ sameRefs (useFrame false restRefs) restRefs.
Proof.
  split; [exact restRefs_atRest|].
  apply (rest_is_fixed_point restRefs). exact restRefs_atRest.
Defined.

(** C3 as stated fails: in the rest pose an idle frame leaves scale.z at
    1, at distance 0 from its target both before and after.  And on the
    doubles of the program a value can stop short of its target: released
    from the pressed floor, scale.z is below 1 after 400 idle frames and
    the next frame leaves it where it is. *)
Lemma idle_frame_not_strictly_closer :
  ~ idleAlwaysStrictlyCloser /\
  (let v := Nat.iter 400 Binary64.releaseScale Binary64.minScaleZ in
   Binary64.below v Binary64.targetScaleZ = true /\ Binary64.releaseScale v = v).
Proof.
  split.
  - intros H.
    specialize (H restRefs restObject (releaseGroup restObject)
                  restShadow (releaseShadow restShadow)
                  eq_refl eq_refl eq_refl eq_refl).
    apply Forall_inv_tail, Forall_inv_tail, Forall_inv in H.
    destruct H as [H _]. vm_compute in H. discriminate H.
  - vm_compute. split; reflexivity.
Qed.

(** C3, amended.  In an idle frame each of the seven eased quantities is
    updated by value += (target - value) * rate.  Its distance to the
    target does not grow and it does not pass the target; the distance
    gets strictly smaller whenever the frame changes the value at all; a
    value that is on its target stays there. *)
Theorem idle_eases (r : Refs) (g : Object3D) (s : Mesh) :
  group r = Some g -> shadowRef r = Some s ->
  exists (g' : Object3D) (s' : Mesh),
    group (useFrame false r) = Some g' /\
    shadowRef (useFrame false r) = Some s' /\
    Forall approaches (easedQuantities g g' s s').
Proof.
  intros Hg Hs. exists (releaseGroup g), (releaseShadow s).
  split; [apply (useFrame_group false _ _ Hg)|].
  split; [rewrite (useFrame_shadowRef false _ _ Hg), Hs; reflexivity|].
  unfold easedQuantities.
  rewrite releaseGroup_position_z, releaseGroup_rotation_x, releaseGroup_scale_z.
  repeat apply Forall_cons; try apply Forall_nil;
    (apply ease_approaches; reflexivity).
Qed.

Lemma idle_eases_witness :
  let g := mkObject3D (Vector3.mk 0 0.2 (-0.15)) (Vector3.mk 0.03 0 0) (Vector3.mk 1 1 0.65) in
  let s := pressShadow restShadow in
  exists (g' : Object3D) (s' : Mesh),
    group (useFrame false (mkRefs (Some g) (Some s))) = Some g' /\
    shadowRef (useFrame false (mkRefs (Some g) (Some s))) = Some s' /\
    Forall approaches (easedQuantities g g' s s').
Proof.
  intros g s.
  apply (idle_eases (mkRefs (Some g) (Some s)) g s); reflexivity.
Defined.

(** ** The press state machine *)

Lemma handleClick_pressed (c : Component) :
  isPressed c = true -> handleClick c = c.
Proof. unfold handleClick. intros ->. reflexivity. Qed.

Lemma leb_plus (t a b : nat) : (a <= b)%nat -> (t + a <=? t + b)%nat = true.
Proof. intros H. apply Nat.leb_le. lia. Qed.

Lemma handleClick_settled (c : Component) :
  settled c -> pressedSince (now c) (S (onClickCalls c)) (handleClick c).
Proof.
  destruct c as [p snd r t l k]. intros [Hp Hl]. cbn in Hp, Hl. subst p l.
  unfold handleClick, pressedSince. cbn [isPressed sound setIsPressed onClick].
  destruct snd as [a|].
  - assert (E : (t + 10 <=? t + 200)%nat = true) by (apply leb_plus; lia).
    destruct (isPlaying a); cbn; rewrite E; repeat split; auto.
  - cbn. repeat split; auto.
Qed.

Lemma handleClick_counts (c : Component) :
  isPressed c = false -> onClickCalls (handleClick c) = S (onClickCalls c).
Proof.
  destruct c as [p snd r t l k]. cbn. intros ->. unfold handleClick. cbn.
  destruct snd as [a|]; [destruct (isPlaying a)|]; reflexivity.
Qed.

Lemma handleClick_now (c : Component) : now (handleClick c) = now c.
Proof.
  destruct c as [p snd r t l k]. unfold handleClick. cbn.
  destruct p; [reflexivity|].
  destruct snd as [a|]; [destruct (isPlaying a)|]; reflexivity.
Qed.

Lemma step_now (e : Event) (c : Component) : (now c <= now (step e c))%nat.
Proof.
  destruct e; cbn [step]; try (destruct c; cbn; lia).
  - rewrite handleClick_now. lia.
  - destruct (timers c) as [|t l]; [lia|].
    destruct (due t <=? now c)%nat; [|lia].
    destruct (callback t); cbn; [destruct (sound _)|]; cbn; lia.
Qed.

(** What one event does to an idle component. *)
Lemma step_settled (e : Event) (c : Component) :
  settled c ->
  (settled (step e c) /\ onClickCalls (step e c) = onClickCalls c /\ e <> Click) \/
  (e = Click /\ pressedSince (now c) (S (onClickCalls c)) (step e c)).
Proof.
  intros Hs. destruct e.
  - right. split; [reflexivity | apply handleClick_settled, Hs].
  - left. fields c.
  - left. fields c.
  - left. fields c.
  - left. fields c.
  - left. fields c.
Qed.

(** What one event does to a pressed component: it stays pressed with the
    same release pending, unless the event is the firing of that release,
    due by then. *)
Lemma step_pressedSince (e : Event) (t k : nat) (c : Component) :
  pressedSince t k c ->
  pressedSince t k (step e c) \/
  (e = TimerFires /\ timers c = [mkTimer (t + 200) ReleaseKey] /\
   (t + 200 <= now c)%nat /\ settled (step e c) /\ onClickCalls (step e c) = k).
Proof.
  intros Hp. destruct e.
  - left. cbn [step]. destruct Hp as (Hp & Hrest).
    rewrite (handleClick_pressed c Hp). split; assumption.
  - left. fields c.
  - destruct Hp as (Hp & Hk & Ht & [Hl|Hl]); cbn [step]; rewrite Hl; cbn [due callback].
    + destruct (t + 200 <=? now c)%nat eqn:E.
      * right. apply Nat.leb_le in E. fields c.
      * left. repeat split; auto.
    + destruct (t + 10 <=? now c)%nat eqn:E.
      * left. destruct (sound c) eqn:Es; fields c; rewrite Es; cbn; auto.
      * left. repeat split; auto.
  - left. fields c.
  - left. fields c.
  - left. fields c.
Qed.

Lemma step_wellFormed (e : Event) (c : Component) :
  wellFormed c -> wellFormed (step e c).
Proof.
  intros [Hs | (t & k & Hp)].
  - destruct (step_settled e c Hs) as [(H & _) | (_ & H)];
      [left; exact H | right; eauto].
  - destruct (step_pressedSince e t k c Hp) as [H | (_ & _ & _ & H & _)];
      [right; eauto | left; exact H].
Qed.

Lemma run_app (es es' : list Event) (c : Component) :
  run (es ++ es') c = run es' (run es c).
Proof. apply fold_left_app. Qed.

Lemma run_cons (e : Event) (es : list Event) (c : Component) :
  run (e :: es) c = run es (step e c).
Proof. reflexivity. Qed.

Lemma run_wellFormed (es : list Event) (c : Component) :
  wellFormed c -> wellFormed (run es c).
Proof.
  revert c. induction es as [|e es IH]; intros c H; [exact H|].
  rewrite run_cons. apply IH, step_wellFormed, H.
Qed.

Lemma reachable_wellFormed (c : Component) : reachable c -> wellFormed c.
Proof.
  intros (a & r & t0 & es & ->). apply run_wellFormed. left. split; reflexivity.
Qed.


Lemma reachable_step (e : Event) (c : Component) :
  reachable c -> reachable (step e c).
Proof.
  intros (a & r & t0 & es & ->). exists a, r, t0, (es ++ [e]).
  rewrite run_app. reflexivity.
Qed.

Lemma run_now (es : list Event) (c : Component) : (now c <= now (run es c))%nat.
Proof.
  revert c. induction es as [|e es IH]; intros c; [cbn; lia|].
  rewrite run_cons. pose proof (step_now e c). pose proof (IH (step e c)). lia.
Qed.



Lemma run_counts (es : list Event) (c : Component) :
  onClickCalls (run es c) = (onClickCalls c + activations es c)%nat.
Proof.
  revert c. induction es as [|e es IH]; intros c; [cbn; lia|].
  rewrite run_cons, IH. cbn [activations].
  destruct e; try (destruct c; cbn; lia).
  - cbn [step]. destruct (isPressed c) eqn:Hp.
    + rewrite (handleClick_pressed c Hp). lia.
    + rewrite (handleClick_counts c Hp). lia.
  - cbn [step]. destruct (timers c) as [|t l]; [lia|].
    destruct (due t <=? now c)%nat; [|lia].
    destruct (callback t); cbn; [destruct (sound _)|]; cbn; lia.
Qed.

(** Once 200 ms are over, running the due timeouts releases the key and
    leaves nothing scheduled. *)
Lemma release_fires (c : Component) (d : nat) :
  settled c -> (200 <= d)%nat ->
  settled (run [Elapse d; TimerFires; TimerFires] (handleClick c)).
Proof.
  intros [Hp Hl] Hd. destruct c as [p snd r t l k]. cbn in Hp, Hl. subst p l.
  unfold handleClick. cbn [isPressed sound setIsPressed onClick].
  destruct snd as [a|]; [destruct (isPlaying a)|];
    repeat (cbn; clock); split; reflexivity.
Qed.


(** *** Renders as events *)

Lemma hostRun_cons (h : HostEvent) (hs : list HostEvent) (m : Rendered) :
  hostRun (h :: hs) m = hostRun hs (hostStep h m).
Proof. reflexivity. Qed.

Lemma hostRun_app (hs hs' : list HostEvent) (m : Rendered) :
  hostRun (hs ++ hs') m = hostRun hs' (hostRun hs m).
Proof. apply fold_left_app. Qed.

Lemma upToDate_app (hs hs' : list HostEvent) (m : Rendered) :
  upToDate (hs ++ hs') m <-> upToDate hs m /\ upToDate hs' (hostRun hs m).
Proof.
  revert m. induction hs as [|h hs IH]; intros m.
  - cbn. tauto.
  - cbn [app upToDate]. rewrite hostRun_cons, IH. tauto.
Qed.

Lemma delivered_app (hs hs' : list HostEvent) :
  delivered (hs ++ hs') = delivered hs ++ delivered hs'.
Proof.
  induction hs as [|[|e] hs IH]; cbn; [reflexivity | exact IH | rewrite IH; reflexivity].
Qed.

(** A click delivered to up-to-date callbacks is [handleClick]. *)
Lemma handleClickWith_synced (m : Rendered) :
  synced m -> handleClickWith (seen m) (component m) = handleClick (component m).
Proof. unfold synced. intros ->. reflexivity. Qed.

Lemma hostStep_deliver (e : Event) (m : Rendered) :
  upToDate [Deliver e] m ->
  component (hostStep (Deliver e) m) = step e (component m).
Proof.
  intros [H _]. destruct e; try reflexivity.
  - apply handleClickWith_synced, H.
  - cbn. unfold synced in H. rewrite H. reflexivity.
Qed.

(** When React keeps the callbacks up to date, the component goes through
    a run of [step]s: the events delivered, in order. *)
Lemma hostRun_component (hs : list HostEvent) (m : Rendered) :
  upToDate hs m -> component (hostRun hs m) = run (delivered hs) (component m).
Proof.
  revert m. induction hs as [|h hs IH]; intros m H; [reflexivity|].
  destruct H as [Hh H]. rewrite hostRun_cons, (IH _ H).
  destruct h as [|e]; [reflexivity|].
  cbn [delivered]. rewrite run_cons. f_equal.
  apply hostStep_deliver. split; [exact Hh | exact I].
Qed.

Lemma keptUpToDate_reachable (m : Rendered) :
  keptUpToDate m -> reachable (component m).
Proof.
  intros (a & r & t0 & hs & Hup & ->).
  exists a, r, t0, (delivered hs). apply (hostRun_component hs _ Hup).
Qed.









(** ** The fallback click *)

Lemma Qltb_lt (a b : Q) : Qltb a b = true <-> a < b.
Proof.
  unfold Qltb. rewrite negb_true_iff, <- not_true_iff_false, Qle_bool_iff.
  split; [apply Qnot_le_lt | apply Qlt_not_le].
Qed.

Lemma Qltb_ge (a b : Q) : Qltb a b = false <-> b <= a.
Proof.
  unfold Qltb. rewrite negb_false_iff, Qle_bool_iff. reflexivity.
Qed.

Lemma envelope_attack (len i : nat) :
  ofNat i < ofNat len * 0.1 -> envelope len i == 0.5.
Proof.
  intros H. unfold envelope, fallbackSample.
  apply Qltb_lt in H. rewrite H. reflexivity.
Qed.

Lemma envelope_decay (len i : nat) :
  ofNat len * 0.1 <= ofNat i ->
  envelope len i == 0.5 * (1 - ofNat i / ofNat len).
Proof.
  intros H. unfold envelope, fallbackSample.
  apply Qltb_ge in H. rewrite H. ring.
Qed.

Lemma ofNat_lt_strict (a b : nat) : (a < b)%nat -> ofNat a < ofNat b.
Proof. intros H. pose proof (ofNat_lt a b H). lra. Qed.

(** Past the attack the envelope falls from sample to sample. *)
Lemma envelope_decreasing (len i j : nat) :
  ofNat len * 0.1 <= ofNat i -> (i < j)%nat -> (j < len)%nat ->
  envelope len j < envelope len i.
Proof.
  intros Hi Hij Hj.
  assert (Hlen : 0 < ofNat len)
    by (pose proof (ofNat_nonneg j); pose proof (ofNat_lt_strict j len Hj); lra).
  pose proof (ofNat_lt_strict i j Hij) as Hlt.
  rewrite (envelope_decay len i Hi), (envelope_decay len j) by lra.
  unfold Qdiv.
  pose proof (Qinv_lt_0_compat _ Hlen) as Hinv.
  assert (0 < (ofNat j - ofNat i) * / ofNat len)
    by (apply Qmult_lt_0_compat; lra).
  lra.
Qed.

(** A sample lies between 0 and the envelope. *)
Lemma fallbackSample_bounds (len i : nat) (r : Q) :
  (i < len)%nat -> 0 <= r -> r < 1 ->
  0 <= fallbackSample len i r /\ fallbackSample len i r <= envelope len i.
Proof.
  intros Hi H0 H1. unfold envelope, fallbackSample.
  destruct (Qltb (ofNat i) (ofNat len * 0.1)); [lra|].
  assert (Hlen : 0 < ofNat len)
    by (pose proof (ofNat_nonneg i); pose proof (ofNat_lt_strict i len Hi); lra).
  pose proof (ofNat_lt_strict i len Hi) as Hlt.
  assert (Hq : 0 <= 1 - ofNat i / ofNat len).
  { unfold Qdiv. pose proof (Qinv_lt_0_compat _ Hlen) as Hinv.
    assert (E : ofNat len * / ofNat len == 1) by (apply Qmult_inv_r; lra).
    assert (0 <= (ofNat len - ofNat i) * / ofNat len)
      by (apply Qmult_le_0_compat; lra).
    lra. }
  generalize dependent (1 - ofNat i / ofNat len). intros q Hq.
  split.
  - apply Qmult_le_0_compat; lra.
  - assert (0 <= (1 - r) * q) by (apply Qmult_le_0_compat; lra). lra.
Qed.

Lemma fallback_length (rate : Q) :
  0 <= rate ->
  rate * 0.1 - 1 < ofNat (Z.to_nat (Qfloor (rate * 0.1))) /\
  ofNat (Z.to_nat (Qfloor (rate * 0.1))) <= rate * 0.1.
Proof.
  intros H. unfold ofNat.
  assert (Hf : (0 <= Qfloor (rate * 0.1))%Z).
  { rewrite <- (Qfloor_Z 0). apply Qfloor_resp_le. change (inject_Z 0) with 0. lra. }
  rewrite (Z2Nat.id _ Hf).
  pose proof (Qfloor_le (rate * 0.1)) as Hle.
  pose proof (Qlt_floor (rate * 0.1)) as Hlt.
  rewrite inject_Z_plus in Hlt. change (inject_Z 1) with 1 in Hlt.
  lra.
Qed.

(** The sample is the random number times the envelope. *)
Lemma fallbackSample_envelope (len i : nat) (r : Q) :
  fallbackSample len i r == r * envelope len i.
Proof.
  unfold envelope, fallbackSample.
  destruct (Qltb (ofNat i) (ofNat len * 0.1)); ring.
Qed.

(** An attack of two samples or more does not rise. *)
Lemma attack_flat (len : nat) :
  ofNat 1 < ofNat len * 0.1 -> ~ attackStrictlyIncreasing len.
Proof.
  intros H A. specialize (A 0%nat 1%nat (Nat.lt_0_1) H).
  rewrite (envelope_attack len 0), (envelope_attack len 1) in A.
  - lra.
  - exact H.
  - change (ofNat 0) with 0. change (ofNat 1) with 1 in H. lra.
Qed.

(** C4, the failing input: at 44.1 kHz the buffer has 4410 samples, and
    the envelope of sample 1 is no higher than that of sample 0. *)
Lemma fallback_attack_not_increasing :
  ~ attackStrictlyIncreasing (Z.to_nat (Qfloor (44100 * 0.1))).
Proof.
  intros H. specialize (H 0%nat 1%nat).
  assert (Hlt : envelope (Z.to_nat (Qfloor (44100 * 0.1))) 0
                < envelope (Z.to_nat (Qfloor (44100 * 0.1))) 1)
    by (apply H; [lia | reflexivity]).
  vm_compute in Hlt. discriminate Hlt.
Qed.

(** C4.  What the code does when the sound fails to load.  [sound.current]
    gets a buffer of floor(sampleRate * 0.1) samples at the context's rate,
    within one sample of 100 ms.  Sample [i] is [Math.random()] times an
    envelope, and lies between 0 and it.  In the branch the source calls
    the attack, the first tenth of the buffer, the envelope is 0.5 at every
    sample: it does not rise, and with two samples or more in that branch
    it is not strictly increasing.  After it the envelope is
    0.5 * (1 - i / length) and falls strictly from sample to sample.  The
    volume is 0.3, where a loaded sound gets 0.7; and a click on the idle
    key still has [play()] called once, 10 ms later. *)
Theorem fallback_sound (rate : Q) (random : nat -> Q) (c : Component) (audio : Audio) :
  0 <= rate -> (forall i : nat, 0 <= random i /\ random i < 1) ->
  settled c -> sound c = Some audio ->
  let len := Z.to_nat (Qfloor (rate * 0.1)) in
  let c' := step (AudioLoads LoadError rate random) c in
  exists (b : AudioBuffer.t) (a' : Audio),
    sound c' = Some a' /\ buffer a' = Some b /\
    (AudioBuffer.sampleRate b = rate /\ AudioBuffer.length b = len /\
     List.length (AudioBuffer.channelData b) = len) /\
    (rate * 0.1 - 1 < ofNat len /\ ofNat len <= rate * 0.1) /\
    (forall i : nat,
        (i < len)%nat ->
        nth_error (AudioBuffer.channelData b) i = Some (fallbackSample len i (random i)) /\
        fallbackSample len i (random i) == random i * envelope len i /\
        0 <= fallbackSample len i (random i) /\
        fallbackSample len i (random i) <= envelope len i) /\
    ((forall i : nat, ofNat i < ofNat len * 0.1 -> envelope len i == 0.5) /\
     (ofNat 1 < ofNat len * 0.1 -> ~ attackStrictlyIncreasing len)) /\
    ((forall i : nat,
         ofNat len * 0.1 <= ofNat i ->
         envelope len i == 0.5 * (1 - ofNat i / ofNat len)) /\
     (forall i j : nat,
         ofNat len * 0.1 <= ofNat i -> (i < j)%nat -> (j < len)%nat ->
         envelope len j < envelope len i)) /\
    (volume a' == 0.3 /\
     forall b0 : AudioBuffer.t,
       volume (audioLoaded (Loaded b0) rate random audio) == 0.7) /\
    (exists a'' : Audio,
        sound (run [Click; Elapse 10; TimerFires] c') = Some a'' /\
        buffer a'' = Some b /\ volume a'' == 0.3 /\
        playCalls a'' = S (playCalls audio)).
Proof.
  intros Hrate Hrandom [Hp Hl] Hsound len c'.
  destruct c as [p snd r t l k]. cbn in Hp, Hl, Hsound. subst p l snd.
  exists (AudioBuffer.mk rate len
            (map (fun i => fallbackSample len i (random i)) (seq 0 len))),
         (createFallbackSound rate random audio).
  split; [reflexivity|]. split; [reflexivity|].
  split; [cbn; rewrite length_map, length_seq; auto|].
  split; [exact (fallback_length rate Hrate)|].
  split.
  { intros i Hi. split; [|split].
    - cbn. rewrite nth_error_map, nth_error_seq.
      apply Nat.ltb_lt in Hi. rewrite Hi. reflexivity.
    - apply fallbackSample_envelope.
    - apply fallbackSample_bounds; [exact Hi | apply Hrandom | apply Hrandom]. }
  split; [split; [exact (envelope_attack len) | exact (attack_flat len)]|].
  split; [split; [exact (envelope_decay len) | exact (envelope_decreasing len)]|].
  split; [split; [reflexivity | intros b0; reflexivity]|].
  unfold c'. cbn [step sound option_map setSound run fold_left].
  unfold handleClick. cbn [isPressed sound setIsPressed onClick].
  destruct audio as [buf vol playing pc sc]. cbn [audioLoaded].
  destruct playing;
    repeat (cbn; clock); eexists; repeat split; reflexivity.
Qed.

(** At 44.1 kHz, every call of [Math.random()] returning one half: the
    attack has 441 samples and does not rise. *)
Lemma fallback_sound_witness :
  let c := mounted (Some newAudio) restRefs 0 in
  0 <= 44100 /\ settled c /\ sound c = Some newAudio /\
  exists (b : AudioBuffer.t) (a' : Audio),
    sound (step (AudioLoads LoadError 44100 (fun _ => 0.5)) c) = Some a' /\
    buffer a' = Some b /\ AudioBuffer.length b = 4410%nat /\ volume a' == 0.3 /\
    envelope 4410 0 == 0.5 /\ envelope 4410 440 == 0.5 /\
    ~ attackStrictlyIncreasing 4410.
Proof.
  intros c.
  assert (H0 : 0 <= 44100) by (vm_compute; discriminate).
  assert (Hr : forall i : nat, 0 <= (fun _ : nat => 0.5) i /\ (fun _ : nat => 0.5) i < 1)
    by (intros i; split; [vm_compute; discriminate | reflexivity]).
  assert (Hs : settled c) by (split; reflexivity).
  split; [exact H0|]. split; [exact Hs|]. split; [reflexivity|].
  destruct (fallback_sound 44100 (fun _ => 0.5) c newAudio H0 Hr Hs eq_refl)
    as (b & a' & Hsound & Hbuf & (_ & Hlen & _) & _ & _ & (Hflat & Hnot) & _
        & (Hvol & _) & _).
  exists b, a'.
  split; [exact Hsound|]. split; [exact Hbuf|]. split; [exact Hlen|].
  split; [exact Hvol|].
  split; [apply (Hflat 0%nat); reflexivity|].
  split; [apply (Hflat 440%nat); reflexivity|].
  apply Hnot. reflexivity.
Defined.

(** ** Materials *)

Example isLetterMaterial_letter : isLetterMaterial "Letter_C" = true.
Proof. reflexivity. Qed.

Example isLetterMaterial_text : isLetterMaterial "TEXT.001" = true.
Proof. reflexivity. Qed.

Example isLetterMaterial_body : isLetterMaterial "Body" = false.
Proof. reflexivity. Qed.

(** Any name with a [c] in it counts as a letter surface. *)
Example isLetterMaterial_keycap : isLetterMaterial "Keycap" = true.
Proof. reflexivity. Qed.





(** ** Rendering without a model *)

(** C7.  Without nodes the component logs "Failed to load keycap model" and
    returns [null]: it returns, where the JSX alone would have thrown in
    [Object.entries]; no ref is attached, so a frame in either press state
    changes nothing.  With nodes it logs nothing and returns the group. *)
Theorem model_load_failure (ms : option (list (string * Material)))
        (g : Object3D) (s : Mesh) (isPressed : bool) :
  let gltf := mkGLTFResult None ms in
  let refs := attachRefs (snd (KeycapModel gltf)) g s in
  KeycapModel gltf = (["Failed to load keycap model"%string], Returned null) /\
  (exists error : string, renderGroup gltf = Threw error) /\
  refs = mkRefs None None /\
  useFrame isPressed refs = refs /\
  (forall entries : list (string * Node),
      KeycapModel (mkGLTFResult (Some entries) ms)
      = ([], Returned (GroupElement (ShadowPlane :: map renderNode entries)))).
Proof.
  cbn. repeat split. eexists. reflexivity.
Qed.

(** ** Frames as events *)

Lemma run_frames (n : nat) (c : Component) :
  run (List.repeat Frame n) c = setRefs (frames (isPressed c) n (refs c)) c.
Proof.
  revert c. induction n as [|n IH]; intros c; [destruct c; reflexivity|].
  change (List.repeat Frame (S n)) with (Frame :: List.repeat Frame n).
  rewrite run_cons, IH. destruct c as [p snd r t l k].
  unfold frames. rewrite Nat.iter_succ_r. reflexivity.
Qed.

(** ** The same updates in binary64 *)

(** From rest the pressed frames reach the three bounds after 9, 8 and 6
    frames on doubles too, and stay on them. *)
Lemma binary64_pressed_run :
  Nat.iter 9 Binary64.pressScale Binary64.targetScaleZ = Binary64.minScaleZ /\
  Binary64.pressScale Binary64.minScaleZ = Binary64.minScaleZ /\
  Nat.iter 8 Binary64.pressPosition Binary64.targetZ = Binary64.minPositionZ /\
  Binary64.pressPosition Binary64.minPositionZ = Binary64.minPositionZ /\
  Nat.iter 6 Binary64.pressTilt Binary64.targetRotX = Binary64.maxRotX /\
  Binary64.pressTilt Binary64.maxRotX = Binary64.maxRotX.
Proof. vm_compute. repeat split; reflexivity. Qed.

(** The rest values are fixed by the idle updates on doubles too. *)
Lemma binary64_rest_fixed :
  Binary64.releaseScale Binary64.targetScaleZ = Binary64.targetScaleZ /\
  Binary64.releasePosition Binary64.targetZ = Binary64.targetZ /\
  Binary64.releaseTilt Binary64.targetRotX = Binary64.targetRotX /\
  Binary64.releaseShadowScale Binary64.targetScaleZ = Binary64.targetScaleZ /\
  Binary64.releaseShadowPosition Binary64.targetZ = Binary64.targetZ /\
  Binary64.releaseOpacity Binary64.restOpacity = Binary64.restOpacity.
Proof. vm_compute. repeat split; reflexivity. Qed.

(** Where the exact model and the doubles part: released from the pressed
    floor, scale.z stops short of 1 within 400 idle frames and stays
    there, the step having become smaller than half the spacing of the
    doubles below 1. *)
Lemma binary64_easing_stalls :
  let v := Nat.iter 400 Binary64.releaseScale Binary64.minScaleZ in
  Binary64.below v Binary64.targetScaleZ = true /\ Binary64.releaseScale v = v.
Proof. vm_compute. split; reflexivity. Qed.

(** * Further properties *)

(** ** The pose over whole runs *)

Lemma handleClick_refs (c : Component) : refs (handleClick c) = refs c.
Proof.
  destruct c as [p snd r t l k]. unfold handleClick. cbn.
  destruct p; [reflexivity|].
  destruct snd as [a|]; [destruct (isPlaying a)|]; reflexivity.
Qed.

Lemma step_refs (e : Event) (c : Component) :
  e <> Frame -> refs (step e c) = refs c.
Proof.
  intros He. destruct e; try congruence; cbn [step].
  - apply handleClick_refs.
  - destruct c; reflexivity.
  - destruct (timers c) as [|t l]; [reflexivity|].
    destruct (due t <=? now c)%nat; [|reflexivity].
    destruct (callback t); cbn; [destruct (sound c)|]; destruct c; reflexivity.
  - destruct c; reflexivity.
  - destruct c; reflexivity.
Qed.

Lemma pressGroup_inTravel (g : Object3D) : inTravel g -> inTravel (pressGroup g).
Proof.
  unfold inTravel.
  rewrite pressGroup_scale_z, pressGroup_position_z, pressGroup_rotation_x.
  intros ((? & ?) & (? & ?) & (? & ?)). repeat split; minmax.
Qed.

Lemma releaseGroup_inTravel (g : Object3D) : inTravel g -> inTravel (releaseGroup g).
Proof.
  unfold inTravel.
  rewrite releaseGroup_scale_z, releaseGroup_position_z, releaseGroup_rotation_x.
  unfold ease, targetScaleZ, targetZ, targetRotX, scaleSpeed, positionSpeed, rotationSpeed.
  intros ((? & ?) & (? & ?) & (? & ?)). repeat split; lra.
Qed.

Lemma pressShadow_inRange (s : Mesh) : shadowInRange (pressShadow s).
Proof. unfold shadowInRange. cbn. repeat split; lra. Qed.

Lemma releaseShadow_inRange (s : Mesh) : shadowInRange s -> shadowInRange (releaseShadow s).
Proof.
  unfold shadowInRange. cbn. unfold ease.
  intros ((? & ?) & (? & ?) & (? & ?) & (? & ?)). repeat split; lra.
Qed.

Lemma useFrame_inRange (b : bool) (r : Refs) : refsInRange r -> refsInRange (useFrame b r).
Proof.
  unfold refsInRange, useFrame. intros [Hg Hs].
  destruct (group r) as [g|] eqn:Eg; [|rewrite Eg; split; assumption].
  destruct b; cbn [group shadowRef]; split;
    try (apply pressGroup_inTravel; assumption);
    try (apply releaseGroup_inTravel; assumption);
    destruct (shadowRef r) as [s|]; cbn [option_map]; trivial.
  - apply pressShadow_inRange.
  - apply releaseShadow_inRange; assumption.
Qed.

Lemma step_inRange (e : Event) (c : Component) :
  refsInRange (refs c) -> refsInRange (refs (step e c)).
Proof.
  intros H. destruct e;
    try (rewrite step_refs by discriminate; exact H).
  destruct c as [p snd r t l k]. cbn in *. apply useFrame_inRange, H.
Qed.

(** Through any run of events the keycap stays within its travel (scale.z
    between 0.65 and 1, position.z between -0.15 and 0, rotation.x between
    0 and 0.03) and its shadow within its own (scale.x and scale.y between
    0.9 and 1, position.z between -0.03 and 0, opacity between 0.4 and
    0.6), once they are there. *)
Theorem travel_range (es : list Event) (c : Component) :
  refsInRange (refs c) -> refsInRange (refs (run es c)).
Proof.
  revert c. induction es as [|e es IH]; intros c H; [exact H|].
  rewrite run_cons. apply IH, step_inRange, H.
Qed.

Lemma restRefs_inRange : refsInRange restRefs.
Proof. unfold refsInRange, inTravel, shadowInRange. cbn. repeat split; lra. Qed.

Lemma travel_range_witness :
  let c := mounted (Some newAudio) restRefs 0 in
  refsInRange (refs c) /\ refsInRange (refs (run (pressCycle 5 200 7) c)).
Proof.
  intros c. split; [exact restRefs_inRange|].
  apply (travel_range (pressCycle 5 200 7) c). exact restRefs_inRange.
Defined.

(** ** Idle frames in a row *)

Section IterEase.
Variable A : Type.
Variable f : A -> A.
Variable proj : A -> Q.
Variables target rate : Q.
Hypothesis rate_pos : 0 < rate.
Hypothesis rate_small : rate < 1.
Hypothesis f_eases : forall a : A, proj (f a) == ease target (proj a) rate.

Lemma iter_towards (n : nat) (a : A) :
  towards target (proj a) (proj (Nat.iter n f a)).
Proof.
  induction n as [|n IH]; [apply towards_refl|].
  rewrite Nat.iter_succ.
  pose proof (ease_towards target rate _ _ rate_pos rate_small IH) as H.
  unfold towards in *. rewrite f_eases. exact H.
Qed.
End IterEase.

Lemma frames_group_released (n : nat) (r : Refs) (g : Object3D) :
  group r = Some g ->
  group (frames false n r) = Some (Nat.iter n releaseGroup g).
Proof.
  intros Hg; induction n as [|n IH]; [exact Hg|].
  rewrite frames_S, (useFrame_group false _ _ IH); reflexivity.
Qed.

Lemma frames_shadow_released (n : nat) (r : Refs) (g : Object3D) (s : Mesh) :
  group r = Some g -> shadowRef r = Some s ->
  shadowRef (frames false n r) = Some (Nat.iter n releaseShadow s).
Proof.
  intros Hg Hs; induction n as [|n IH]; [exact Hs|].
  rewrite frames_S.
  rewrite (useFrame_shadowRef false _ _ (frames_group_released n r g Hg)), IH.
  reflexivity.
Qed.

Lemma iter_release_noFarther (k : nat) (g : Object3D) (s : Mesh) :
  Forall noFarther
    (easedQuantities g (Nat.iter k releaseGroup g) s (Nat.iter k releaseShadow s)).
Proof.
  unfold easedQuantities.
  repeat apply Forall_cons; try apply Forall_nil; unfold noFarther.
  - apply (iter_towards _ releaseGroup (fun o => Vector3.z (position o))
             targetZ positionSpeed); [reflexivity | reflexivity |].
    intros a. rewrite releaseGroup_position_z. reflexivity.
  - apply (iter_towards _ releaseGroup (fun o => Vector3.x (rotation o))
             targetRotX rotationSpeed); [reflexivity | reflexivity |].
    intros a. rewrite releaseGroup_rotation_x. reflexivity.
  - apply (iter_towards _ releaseGroup (fun o => Vector3.z (scale o))
             targetScaleZ scaleSpeed); [reflexivity | reflexivity |].
    intros a. rewrite releaseGroup_scale_z. reflexivity.
  - apply (iter_towards _ releaseShadow (fun m => Vector3.x (scale (object3D m)))
             1 0.1); [reflexivity | reflexivity |].
    intros a. reflexivity.
  - apply (iter_towards _ releaseShadow (fun m => Vector3.y (scale (object3D m)))
             1 0.1); [reflexivity | reflexivity |].
    intros a. reflexivity.
  - apply (iter_towards _ releaseShadow (fun m => Vector3.z (position (object3D m)))
             0 0.1); [reflexivity | reflexivity |].
    intros a. reflexivity.
  - apply (iter_towards _ releaseShadow (fun m => opacity (material m))
             0.4 0.1); [reflexivity | reflexivity |].
    intros a. reflexivity.
Qed.

(** Idle frames in a row never undo one another: after [n + k] of them
    each of the seven eased quantities is no farther from its target than
    it was after [n], and on the same side of it.  So a release only ever
    moves the keycap and its shadow towards rest, never past it and never
    back. *)
Theorem idle_frames_approach (n k : nat) (r : Refs) (g : Object3D) (s : Mesh) :
  group r = Some g -> shadowRef r = Some s ->
  exists (gn gk : Object3D) (sn sk : Mesh),
    (group (frames false n r) = Some gn /\ shadowRef (frames false n r) = Some sn) /\
    (group (frames false (n + k) r) = Some gk /\
     shadowRef (frames false (n + k) r) = Some sk) /\
    Forall noFarther (easedQuantities gn gk sn sk).
Proof.
  intros Hg Hs.
  exists (Nat.iter n releaseGroup g), (Nat.iter k releaseGroup (Nat.iter n releaseGroup g)),
    (Nat.iter n releaseShadow s), (Nat.iter k releaseShadow (Nat.iter n releaseShadow s)).
  split; [split; [apply frames_group_released, Hg
                 | apply (frames_shadow_released n r g s Hg Hs)]|].
  split.
  - rewrite (Nat.add_comm n k), <- !Nat.iter_add.
    split; [apply frames_group_released, Hg
           | apply (frames_shadow_released (k + n) r g s Hg Hs)].
  - apply iter_release_noFarther.
Qed.

(** From the bottom of a press: 3 idle frames, then 20 more. *)
Lemma idle_frames_approach_witness :
  let g := mkObject3D (Vector3.mk 0 0.2 (-0.15)) (Vector3.mk 0.03 0 0) (Vector3.mk 1 1 0.65) in
  let s := pressShadow restShadow in
  let r := mkRefs (Some g) (Some s) in
  exists (gn gk : Object3D) (sn sk : Mesh),
    (group (frames false 3 r) = Some gn /\ shadowRef (frames false 3 r) = Some sn) /\
    (group (frames false (3 + 20) r) = Some gk /\
     shadowRef (frames false (3 + 20) r) = Some sk) /\
    Forall noFarther (easedQuantities gn gk sn sk).
Proof.
  intros g s r. apply (idle_frames_approach 3 20 r g s); reflexivity.
Defined.

(** ** Pressed frames from any pose *)

Section PressedFromAnywhere.
Variable g : Object3D.

Lemma pressed_any_scale_z (n : nat) :
  Vector3.z (scale (Nat.iter (S n) pressGroup g))
  == Qmax (Vector3.z (scale g) - 0.04 * ofNat (S n)) 0.65.
Proof.
  induction n as [|n IH].
  - change (Nat.iter 1 pressGroup g) with (pressGroup g).
    rewrite pressGroup_scale_z. change (ofNat 1) with 1. minmax.
  - rewrite Nat.iter_succ, pressGroup_scale_z, (ofNat_S (S n)).
    revert IH. generalize (Vector3.z (scale (Nat.iter (S n) pressGroup g))).
    generalize (ofNat (S n)). intros k v IH. minmax.
Qed.

Lemma pressed_any_position_z (n : nat) :
  Vector3.z (position (Nat.iter (S n) pressGroup g))
  == Qmax (Vector3.z (position g) - 0.02 * ofNat (S n)) (-0.15).
Proof.
  induction n as [|n IH].
  - change (Nat.iter 1 pressGroup g) with (pressGroup g).
    rewrite pressGroup_position_z. change (ofNat 1) with 1. minmax.
  - rewrite Nat.iter_succ, pressGroup_position_z, (ofNat_S (S n)).
    revert IH. generalize (Vector3.z (position (Nat.iter (S n) pressGroup g))).
    generalize (ofNat (S n)). intros k v IH. minmax.
Qed.

Lemma pressed_any_rotation_x (n : nat) :
  Vector3.x (rotation (Nat.iter (S n) pressGroup g))
  == Qmin (Vector3.x (rotation g) + 0.005 * ofNat (S n)) 0.03.
Proof.
  induction n as [|n IH].
  - change (Nat.iter 1 pressGroup g) with (pressGroup g).
    rewrite pressGroup_rotation_x. change (ofNat 1) with 1. minmax.
  - rewrite Nat.iter_succ, pressGroup_rotation_x, (ofNat_S (S n)).
    revert IH. generalize (Vector3.x (rotation (Nat.iter (S n) pressGroup g))).
    generalize (ofNat (S n)). intros k v IH. minmax.
Qed.
End PressedFromAnywhere.

(** Pressed frames from any pose, say in the middle of a release: after
    [n >= 1] of them scale.z is max(start - 0.04 n, 0.65), position.z is
    max(start - 0.02 n, -0.15) and rotation.x is min(start + 0.005 n,
    0.03); so each is on its bound as soon as [n] steps cover the distance
    it had to go, and from a pose within the travel 9 frames are always
    enough for all three. *)
Theorem pressed_from_anywhere (n : nat) (r : Refs) (g : Object3D) :
  group r = Some g ->
  exists gn : Object3D,
    group (frames true (S n) r) = Some gn /\
    (Vector3.z (scale gn) == Qmax (Vector3.z (scale g) - 0.04 * ofNat (S n)) 0.65 /\
     Vector3.z (position gn) == Qmax (Vector3.z (position g) - 0.02 * ofNat (S n)) (-0.15) /\
     Vector3.x (rotation gn) == Qmin (Vector3.x (rotation g) + 0.005 * ofNat (S n)) 0.03) /\
    ((Vector3.z (scale g) - 0.65 <= 0.04 * ofNat (S n) -> Vector3.z (scale gn) == 0.65) /\
     (Vector3.z (position g) + 0.15 <= 0.02 * ofNat (S n) ->
      Vector3.z (position gn) == -0.15) /\
     (0.03 - Vector3.x (rotation g) <= 0.005 * ofNat (S n) ->
      Vector3.x (rotation gn) == 0.03)) /\
    (inTravel g -> (9 <= S n)%nat ->
     Vector3.z (scale gn) == 0.65 /\ Vector3.z (position gn) == -0.15 /\
     Vector3.x (rotation gn) == 0.03).
Proof.
  intros Hg. exists (Nat.iter (S n) pressGroup g).
  split; [apply frames_group_pressed, Hg|].
  pose proof (pressed_any_scale_z g n) as Hs.
  pose proof (pressed_any_position_z g n) as Hp.
  pose proof (pressed_any_rotation_x g n) as Hr.
  revert Hs Hp Hr.
  generalize (Vector3.z (scale (Nat.iter (S n) pressGroup g))) as s.
  generalize (Vector3.z (position (Nat.iter (S n) pressGroup g))) as p.
  generalize (Vector3.x (rotation (Nat.iter (S n) pressGroup g))) as t.
  intros t p s Hs Hp Hr.
  split; [repeat split; assumption|].
  split; [repeat split; intros H; minmax|].
  intros ((? & ?) & (? & ?) & (? & ?)) Hn.
  apply ofNat_le in Hn. change (ofNat 9) with 9 in Hn.
  repeat split; minmax.
Qed.

(** A press that starts half way back to rest. *)
Lemma pressed_from_anywhere_witness :
  let g := mkObject3D (Vector3.mk 0 0.2 (-0.07)) (Vector3.mk 0.01 0 0) (Vector3.mk 1 1 0.8) in
  let r := mkRefs (Some g) None in
  exists gn : Object3D,
    group (frames true 9 r) = Some gn /\
    Vector3.z (scale gn) == 0.65 /\ Vector3.z (position gn) == -0.15 /\
    Vector3.x (rotation gn) == 0.03.
Proof.
  intros g r.
  destruct (pressed_from_anywhere 8 r g eq_refl) as (gn & Hgn & _ & _ & H).
  exists gn. split; [exact Hgn|].
  apply H; [|lia].
  unfold inTravel. cbn. repeat split; lra.
Defined.

(** ** A whole press and release *)

Lemma handleClick_setRefs (r : Refs) (c : Component) :
  handleClick (setRefs r c) = setRefs r (handleClick c).
Proof.
  destruct c as [p snd r0 t l k]. unfold handleClick. cbn.
  destruct p; [reflexivity|].
  destruct snd as [a|]; [destruct (isPlaying a)|]; reflexivity.
Qed.

Lemma run_refs (es : list Event) (c : Component) :
  ~ In Frame es -> refs (run es c) = refs c.
Proof.
  revert c. induction es as [|e es IH]; intros c H; [reflexivity|].
  rewrite run_cons, IH by (intros Hin; apply H; right; exact Hin).
  apply step_refs. intros ->. apply H. left. reflexivity.
Qed.

Lemma pressed_to_the_floor (g : Object3D) (m : nat) :
  atRest g -> (9 <= m)%nat ->
  Vector3.z (scale (Nat.iter m pressGroup g)) == 0.65 /\
  Vector3.z (position (Nat.iter m pressGroup g)) == -0.15 /\
  Vector3.x (rotation (Nat.iter m pressGroup g)) == 0.03.
Proof.
  intros Hrest Hm. apply ofNat_le in Hm. change (ofNat 9) with 9 in Hm.
  rewrite (pressed_scale_z g Hrest m), (pressed_position_z g Hrest m),
    (pressed_rotation_x g Hrest m).
  repeat split; minmax.
Qed.

(** The press cycle as a run of [step]s. *)
Lemma run_pressCycle (m d n : nat) (c : Component) (g : Object3D) :
  settled c -> group (refs c) = Some g -> (200 <= d)%nat ->
  let c' := run (pressCycle m d n) c in
  isPressed c' = false /\ timers c' = [] /\
  onClickCalls c' = S (onClickCalls c) /\
  group (refs c') = Some (Nat.iter n releaseGroup (Nat.iter m pressGroup g)).
Proof.
  intros Hs Hg Hd c'. unfold c', pressCycle.
  rewrite run_cons, !run_app. cbn [step].
  assert (Hp1 : isPressed (handleClick c) = true)
    by apply (handleClick_settled c Hs).
  rewrite (run_frames m (handleClick c)), Hp1, <- handleClick_setRefs, handleClick_refs.
  set (c0 := setRefs (frames true m (refs c)) c).
  assert (Hs0 : settled c0) by (destruct c; destruct Hs; split; assumption).
  pose proof (release_fires c0 d Hs0 Hd) as [Hp3 Ht3].
  set (c3 := run [Elapse d; TimerFires; TimerFires] (handleClick c0)) in *.
  assert (Hr3 : refs c3 = frames true m (refs c)).
  { unfold c3. rewrite run_refs, handleClick_refs.
    - destruct c; reflexivity.
    - cbn. intros [H|[H|[H|[]]]]; discriminate H. }
  assert (Hk3 : onClickCalls c3 = S (onClickCalls c)).
  { unfold c3. rewrite run_counts. cbn [activations].
    rewrite (handleClick_counts c0) by apply Hs0.
    destruct c; cbn. lia. }
  rewrite (run_frames n c3), Hp3, Hr3.
  split; [destruct c3; exact Hp3|].
  split; [destruct c3; exact Ht3|].
  split; [destruct c3; exact Hk3|].
  destruct c3. cbn [refs setRefs].
  apply frames_group_released, frames_group_pressed, Hg.
Qed.

Lemma delivered_frames (n : nat) :
  delivered (List.repeat (Deliver Frame) n) = List.repeat Frame n.
Proof. induction n as [|n IH]; [reflexivity|]. cbn. rewrite IH. reflexivity. Qed.

Lemma delivered_hostCycle (n d k : nat) :
  delivered (hostCycle n d k) = pressCycle n d k.
Proof.
  unfold hostCycle, pressCycle. rewrite !delivered_app, !delivered_frames. reflexivity.
Qed.

Lemma hostStep_frame_seen (m : Rendered) :
  seen (hostStep (Deliver Frame) m) = seen m /\
  isPressed (component (hostStep (Deliver Frame) m)) = isPressed (component m).
Proof. destruct m as [[p snd r t l q] sn]. split; reflexivity. Qed.

Lemma upToDate_frames (n : nat) (m : Rendered) :
  synced m ->
  upToDate (List.repeat (Deliver Frame) n) m /\
  synced (hostRun (List.repeat (Deliver Frame) n) m).
Proof.
  revert m. induction n as [|n IH]; intros m H; [split; [exact I | exact H]|].
  cbn [List.repeat upToDate]. rewrite hostRun_cons.
  assert (H' : synced (hostStep (Deliver Frame) m)).
  { unfold synced in *. destruct (hostStep_frame_seen m) as [-> ->]. exact H. }
  destruct (IH _ H') as [Hup Hs]. split; [split; assumption | exact Hs].
Qed.

Lemma upToDate_hostCycle (n d k : nat) (m : Rendered) :
  synced m -> upToDate (hostCycle n d k) m.
Proof.
  intros H. unfold hostCycle.
  apply upToDate_app. split; [split; [exact H | split; exact I]|].
  apply upToDate_app.
  assert (H2 : synced (hostRun [Deliver Click; Render] m)) by reflexivity.
  destruct (upToDate_frames n _ H2) as [Hup _]. split; [exact Hup|].
  apply upToDate_app. split; [cbn; tauto|].
  apply upToDate_frames. reflexivity.
Qed.

Lemma iter_release_inTravel (k : nat) (g : Object3D) :
  inTravel g -> inTravel (Nat.iter k releaseGroup g).
Proof.
  intros H. induction k as [|k IH]; [exact H|].
  rewrite Nat.iter_succ. apply releaseGroup_inTravel, IH.
Qed.

(** A click on the idle key at rest and the render after it, [n >= 9]
    frames while it is pressed, the release once [d >= 200] ms are over
    and the render after that, then [k] idle frames: React has the
    callbacks up to date all along; the key ends idle with nothing
    scheduled and [onClick] called once; at its release the keycap is at
    the bottom of its travel (scale.z 0.65, position.z -0.15, rotation.x
    0.03); and after the idle frames it is within its travel, no farther
    from rest than at the bottom and not past it. *)
Theorem press_and_release (n d k : nat) (m : Rendered) (g : Object3D) :
  settled (component m) -> seen m = false ->
  group (refs (component m)) = Some g -> atRest g ->
  (9 <= n)%nat -> (200 <= d)%nat ->
  let m' := hostRun (hostCycle n d k) m in
  upToDate (hostCycle n d k) m /\
  (isPressed (component m') = false /\ timers (component m') = [] /\
   onClickCalls (component m') = S (onClickCalls (component m))) /\
  exists gb g' : Object3D,
    group (refs (component (hostRun (hostCycle n d 0) m))) = Some gb /\
    (Vector3.z (scale gb) == 0.65 /\ Vector3.z (position gb) == -0.15 /\
     Vector3.x (rotation gb) == 0.03) /\
    group (refs (component m')) = Some g' /\
    inTravel g' /\
    (towards targetScaleZ (Vector3.z (scale gb)) (Vector3.z (scale g')) /\
     towards targetZ (Vector3.z (position gb)) (Vector3.z (position g')) /\
     towards targetRotX (Vector3.x (rotation gb)) (Vector3.x (rotation g'))).
Proof.
  intros Hs Hseen Hg Hrest Hn Hd m'.
  assert (Hsync : synced m) by (unfold synced; destruct Hs as [-> _]; exact Hseen).
  pose proof (upToDate_hostCycle n d k m Hsync) as Hup.
  pose proof (upToDate_hostCycle n d 0 m Hsync) as Hup0.
  split; [exact Hup|].
  unfold m'. rewrite (hostRun_component _ m Hup), (hostRun_component _ m Hup0).
  rewrite !delivered_hostCycle.
  destruct (run_pressCycle n d k _ g Hs Hg Hd) as (Hp & Ht & Hk & Hgk).
  destruct (run_pressCycle n d 0 _ g Hs Hg Hd) as (_ & _ & _ & Hg0).
  split; [repeat split; assumption|].
  exists (Nat.iter n pressGroup g), (Nat.iter k releaseGroup (Nat.iter n pressGroup g)).
  destruct (pressed_to_the_floor g n Hrest Hn) as (Es & Ep & Er).
  split; [exact Hg0|]. split; [repeat split; assumption|].
  split; [exact Hgk|]. split.
  - apply iter_release_inTravel. unfold inTravel. rewrite Es, Ep, Er.
    repeat split; lra.
  - pose proof (iter_release_noFarther k (Nat.iter n pressGroup g) restShadow) as H.
    unfold easedQuantities in H.
    pose proof (Forall_inv H) as Hpz.
    pose proof (Forall_inv (Forall_inv_tail H)) as Hrx.
    pose proof (Forall_inv (Forall_inv_tail (Forall_inv_tail H))) as Hsz.
    split; [exact Hsz | split; [exact Hpz | exact Hrx]].
Qed.

(** A press of twelve frames, released after 200 ms, five idle frames. *)
Lemma press_and_release_witness :
  let m := firstRender (Some newAudio) restRefs 0 in
  let m' := hostRun (hostCycle 12 200 5) m in
  upToDate (hostCycle 12 200 5) m /\
  (isPressed (component m') = false /\ timers (component m') = [] /\
   onClickCalls (component m') = S (onClickCalls (component m))).
Proof.
  intros m m'.
  destruct (press_and_release 12 200 5 m restObject) as (Hup & H & _).
  - split; reflexivity.
  - reflexivity.
  - reflexivity.
  - exact restObject_atRest.
  - lia.
  - lia.
  - split; [exact Hup | exact H].
Defined.

(** ** Timeouts and the rate of clicks *)

(** As long as React re-renders the component between a change of
    [isPressed] and the next click or frame, timeouts do not pile up: an
    idle key has none pending, a pressed key has its one release, due
    200 ms after a click made no later than now, and before it at most the
    one timeout that starts the sound, due 10 ms after that click. *)
Theorem timeouts_bounded (m : Rendered) :
  keptUpToDate m ->
  let c := component m in
  (List.length (timers c) <= 2)%nat /\
  (isPressed c = false -> timers c = []) /\
  (isPressed c = true ->
   exists t : nat,
     (t <= now c)%nat /\
     (timers c = [mkTimer (t + 200) ReleaseKey] \/
      timers c = [mkTimer (t + 10) PlaySound; mkTimer (t + 200) ReleaseKey])).
Proof.
  intros Hr c. apply keptUpToDate_reachable in Hr. fold c in Hr.
  destruct (reachable_wellFormed c Hr) as [[Hp Hl] | (t & k & Hp & _ & Ht & Hl)].
  - rewrite Hl. split; [cbn; lia|]. split; [reflexivity | congruence].
  - split; [destruct Hl as [-> | ->]; cbn; lia|].
    split; [congruence|]. intros _. exists t. split; assumption.
Qed.

Lemma timeouts_bounded_witness :
  let hs := [Deliver Click; Render; Deliver (Elapse 50); Deliver TimerFires;
             Deliver Frame; Deliver Click] in
  let c := component (hostRun hs (firstRender (Some newAudio) restRefs 0)) in
  (List.length (timers c) <= 2)%nat /\
  (isPressed c = false -> timers c = []) /\
  (isPressed c = true ->
   exists t : nat,
     (t <= now c)%nat /\
     (timers c = [mkTimer (t + 200) ReleaseKey] \/
      timers c = [mkTimer (t + 10) PlaySound; mkTimer (t + 200) ReleaseKey])).
Proof.
  intros hs c.
  apply (timeouts_bounded (hostRun hs (firstRender (Some newAudio) restRefs 0))).
  exists (Some newAudio), restRefs, 0%nat, hs.
  split; [cbn; unfold synced; cbn; repeat split | reflexivity].
Defined.

(** The bound on the calls of [onClick], from an idle key and from a key
    pressed since [t]. *)
Lemma run_rate (es : list Event) (c : Component) :
  (settled c ->
   200 * onClickCalls (run es c) + now c
   <= 200 * onClickCalls c + 200 + now (run es c))%nat /\
  (forall t k : nat,
      pressedSince t k c ->
      (200 * onClickCalls (run es c) + t <= 200 * k + now (run es c))%nat /\
      (200 * onClickCalls (run es c) + now c <= 200 * k + 200 + now (run es c))%nat).
Proof.
  revert c. induction es as [|e es IH]; intros c.
  - split; [cbn; lia|]. intros t k (_ & Hk & Ht & _). cbn. lia.
  - rewrite run_cons. destruct (IH (step e c)) as [IHs IHp].
    pose proof (step_now e c) as Hnow. split.
    + intros Hs. destruct (step_settled e c Hs) as [(Hs' & Hk & _) | (_ & Hp')].
      * specialize (IHs Hs'). lia.
      * specialize (IHp _ _ Hp'). lia.
    + intros t k Hp.
      destruct (step_pressedSince e t k c Hp) as [Hp' | (_ & _ & Hdue & Hs' & Hk)].
      * specialize (IHp _ _ Hp'). lia.
      * specialize (IHs Hs'). lia.
Qed.

(** As long as React re-renders the component between a change of
    [isPressed] and the next click or frame, [onClick] is called at most
    once per 200 ms: over any such run, 200 times the calls made fit into
    the time that has passed plus 200.  Two clicks that both count are at
    least 200 ms apart. *)
Theorem click_rate (hs : list HostEvent) (m : Rendered) :
  keptUpToDate m -> upToDate hs m ->
  (200 * (onClickCalls (component (hostRun hs m)) - onClickCalls (component m))
   <= now (component (hostRun hs m)) - now (component m) + 200)%nat.
Proof.
  intros Hr Hup. apply keptUpToDate_reachable in Hr.
  rewrite (hostRun_component hs m Hup).
  set (c := component m) in *. set (es := delivered hs).
  pose proof (run_now es c) as Hnow.
  destruct (run_rate es c) as [Hs Hp].
  destruct (reachable_wellFormed c Hr) as [H | (t & k & H)].
  - specialize (Hs H). lia.
  - specialize (Hp t k H). destruct H as (_ & Hk & Ht & _). lia.
Qed.

(** Five clicks 60 ms apart, every due timeout run at once and a render
    after each event. *)
Lemma click_rate_witness :
  let m := firstRender (Some newAudio) restRefs 0 in
  let hs := List.concat
              (List.repeat [Deliver Click; Render; Deliver (Elapse 60);
                            Deliver TimerFires; Deliver TimerFires; Render] 5) in
  upToDate hs m /\
  (200 * (onClickCalls (component (hostRun hs m)) - onClickCalls (component m))
   <= now (component (hostRun hs m)) - now (component m) + 200)%nat.
Proof.
  intros m hs.
  assert (Hup : upToDate hs m) by (vm_compute; repeat split).
  split; [exact Hup|].
  apply (click_rate hs m); [|exact Hup].
  exists (Some newAudio), restRefs, 0%nat, []. split; [exact I | reflexivity].
Defined.

(** ** The sound over whole runs *)

Lemma pendingPlays_enqueue (t : Timer) (l : list Timer) (c : Component) :
  pendingPlays (setTimers (enqueue t l) c)
  = (match callback t with PlaySound => 1 | ReleaseKey => 0 end
     + pendingPlays (setTimers l c))%nat.
Proof.
  unfold pendingPlays. destruct c as [p snd r n l0 k]. cbn [timers setTimers].
  induction l as [|u l IH].
  - cbn. destruct (callback t); reflexivity.
  - cbn [enqueue]. destruct (due u <=? due t)%nat.
    + cbn [filter]. destruct (callback u); cbn [List.length]; rewrite IH; lia.
    + cbn [filter]. destruct (callback t), (callback u); cbn [List.length]; lia.
Qed.

Lemma pendingPlays_setTimeout (cb : TimerCallback) (d : nat) (c : Component) :
  pendingPlays (setTimeout cb d c)
  = (match cb with PlaySound => 1 | ReleaseKey => 0 end + pendingPlays c)%nat.
Proof.
  unfold setTimeout. rewrite pendingPlays_enqueue. cbn [callback].
  destruct c; reflexivity.
Qed.

Lemma audioLoaded_counts (result : LoadResult) (rate : Q) (random : nat -> Q) (a : Audio) :
  playCalls (audioLoaded result rate random a) = playCalls a /\
  stopCalls (audioLoaded result rate random a) = stopCalls a /\
  isPlaying (audioLoaded result rate random a) = isPlaying a.
Proof. destruct result; repeat split. Qed.

Lemma step_soundBalance (a0 : Audio) (c0 : Component) (e : Event) (c : Component) :
  soundBalance a0 c0 c -> soundBalance a0 c0 (step e c).
Proof.
  intros (a & Ha & Hplay & Hstop). destruct e; cbn [step].
  - unfold handleClick. destruct (isPressed c) eqn:Hp; [exists a; auto|].
    cbn [sound setIsPressed onClick]. rewrite Ha.
    destruct (isPlaying a) eqn:Hplaying.
    + exists (stop a). rewrite !pendingPlays_setTimeout.
      destruct c as [p snd r n l k]. cbn in *. subst snd.
      repeat split; unfold pendingPlays in *; cbn in *; lia.
    + exists a. rewrite !pendingPlays_setTimeout.
      destruct c as [p snd r n l k]. cbn in *. subst snd.
      repeat split; unfold pendingPlays in *; cbn in *; lia.
  - exists a. destruct c; cbn in *. auto.
  - destruct (timers c) as [|t l] eqn:Hl; [exists a; auto|].
    destruct (due t <=? now c)%nat; [|exists a; auto].
    destruct c as [p snd r n l0 k]. cbn in *. subst snd l0.
    destruct (callback t) eqn:Hcb.
    + exists (play a). unfold pendingPlays in *. cbn in *. rewrite Hcb in Hplay.
      cbn in *. repeat split; lia.
    + exists a. unfold pendingPlays in *. cbn in *. rewrite Hcb in Hplay.
      cbn in *. repeat split; lia.
  - exists a. destruct c; cbn in *. auto.
  - exists (onEnded a). destruct c as [p snd r n l k]. cbn in *. subst snd.
    cbn. repeat split; assumption.
  - exists (audioLoaded result rate random a).
    destruct (audioLoaded_counts result rate random a) as (E1 & E2 & _).
    destruct c as [p snd r n l k]. cbn in *. subst snd.
    cbn. rewrite E1, E2. repeat split; assumption.
Qed.

Lemma run_soundBalance (a0 : Audio) (c0 : Component) (es : list Event) (c : Component) :
  soundBalance a0 c0 c -> soundBalance a0 c0 (run es c).
Proof.
  revert c. induction es as [|e es IH]; intros c H; [exact H|].
  rewrite run_cons. apply IH, step_soundBalance, H.
Qed.

(** With an [Audio] in [sound.current], every click that counts has
    [play()] called exactly once, 10 ms later or when the host gets to it:
    over any run the calls of [play()] made and those still scheduled grow
    by the number of [onClick] calls, whether or not the sound has loaded
    in between; and [stop()] is called at most once per click that
    counts. *)
Theorem sound_per_click (es : list Event) (c : Component) (a : Audio) :
  sound c = Some a ->
  exists a' : Audio,
    sound (run es c) = Some a' /\
    (playCalls a' + pendingPlays (run es c) + onClickCalls c
     = playCalls a + pendingPlays c + onClickCalls (run es c))%nat /\
    (stopCalls a' + onClickCalls c <= stopCalls a + onClickCalls (run es c))%nat.
Proof.
  intros Ha. apply (run_soundBalance a c es c).
  exists a. repeat split; [exact Ha | lia].
Qed.

(** Three clicks of which two count, the sound loading late. *)
Lemma sound_per_click_witness :
  let c := mounted (Some newAudio) restRefs 0 in
  let es := [Click; Elapse 10; TimerFires; Click; Elapse 200; TimerFires;
             AudioLoads LoadError 44100 (fun _ => 0.5); Click; Elapse 10; TimerFires] in
  exists a' : Audio,
    sound (run es c) = Some a' /\
    (playCalls a' + pendingPlays (run es c) + onClickCalls c
     = playCalls newAudio + pendingPlays c + onClickCalls (run es c))%nat /\
    (stopCalls a' + onClickCalls c <= stopCalls newAudio + onClickCalls (run es c))%nat.
Proof.
  intros c es. apply (sound_per_click es c newAudio). reflexivity.
Defined.




(** ** One render, several calls *)

Lemma handleClick_closure (c : Component) :
  handleClick c = handleClickWith (isPressed c) c.
Proof. reflexivity. Qed.

(** [press] on a component spelled out. *)
Lemma press_fields (p : bool) (a : Audio) (r : Refs) (t : nat) (l : list Timer) (k : nat) :
  press (mkComponent p (Some a) r t l k)
  = mkComponent true (Some (if isPlaying a then stop a else a)) r t
      (enqueue (mkTimer (t + 200) ReleaseKey) (enqueue (mkTimer (t + 10) PlaySound) l))
      (S k).
Proof. unfold press. cbn. destruct (isPlaying a); reflexivity. Qed.

Lemma elapse_fields (p : bool) (s : option Audio) (r : Refs) (n : nat)
      (l : list Timer) (k d : nat) :
  step (Elapse d) (mkComponent p s r n l k) = mkComponent p s r (n + d) l k.
Proof. reflexivity. Qed.

Lemma fire_due (p : bool) (s : option Audio) (r : Refs) (n : nat) (t : Timer)
      (l : list Timer) (k : nat) :
  (due t <= n)%nat ->
  step TimerFires (mkComponent p s r n (t :: l) k)
  = runCallback (callback t) (mkComponent p s r n l k).
Proof. intros H. cbn. apply Nat.leb_le in H. rewrite H. reflexivity. Qed.

Lemma fire_not_due (p : bool) (s : option Audio) (r : Refs) (n : nat) (t : Timer)
      (l : list Timer) (k : nat) :
  (n < due t)%nat ->
  step TimerFires (mkComponent p s r n (t :: l) k) = mkComponent p s r n (t :: l) k.
Proof. intros H. cbn. apply Nat.leb_gt in H. rewrite H. reflexivity. Qed.

Lemma upToDate_timeouts (d n : nat) (m : Rendered) :
  upToDate (Deliver (Elapse d) :: List.repeat (Deliver TimerFires) n) m.
Proof.
  split; [exact I|]. generalize (hostStep (Deliver (Elapse d)) m). clear m.
  induction n as [|n IH]; intros m; [exact I|].
  split; [exact I | apply IH].
Qed.

(** The guard of [handleClick] tests the [isPressed] of the render that
    built the handler.  Two calls of the handler of one render of the idle
    key both pass: two calls of [onClick], two sound timeouts and two
    releases for the same time; with all four run the key is idle again,
    nothing is left scheduled, and [play()] was called twice.  With a
    render between the two calls the second one is a no-op. *)
Theorem one_render_two_calls (m : Rendered) (a : Audio) :
  settled (component m) -> seen m = false -> sound (component m) = Some a ->
  let c := component m in
  let m2 := hostRun [Deliver Click; Deliver Click] m in
  let m3 := hostRun (Deliver (Elapse 200) :: List.repeat (Deliver TimerFires) 4) m2 in
  (onClickCalls (component m2) = S (S (onClickCalls c)) /\
   timers (component m2)
   = [mkTimer (now c + 10) PlaySound; mkTimer (now c + 10) PlaySound;
      mkTimer (now c + 200) ReleaseKey; mkTimer (now c + 200) ReleaseKey]) /\
  (settled (component m3) /\
   exists a' : Audio,
     sound (component m3) = Some a' /\ playCalls a' = S (S (playCalls a))) /\
  hostRun [Deliver Click; Render; Deliver Click] m = hostRun [Deliver Click; Render] m /\
  onClickCalls (component (hostRun [Deliver Click; Render; Deliver Click] m))
  = S (onClickCalls c).
Proof.
  intros [Hp Hl] Hseen Hs c m2 m3.
  assert (E3 : component m3
               = run (Elapse 200 :: List.repeat TimerFires 4) (component m2)).
  { unfold m3. rewrite (hostRun_component _ m2 (upToDate_timeouts 200 4 m2)).
    reflexivity. }
  rewrite E3. clear E3 m3.
  destruct m as [[p snd r t l k] sn]. cbn in Hp, Hl, Hs, Hseen. subst p l snd sn.
  unfold m2, c. clear m2 c.
  cbn [hostRun fold_left hostStep seen component handleClickWith].
  rewrite !press_fields.
  set (a1 := if isPlaying a then stop a else a).
  assert (Ha1 : isPlaying a1 = false /\ playCalls a1 = playCalls a)
    by (unfold a1; destruct a as [buf vol [] pc sc]; split; reflexivity).
  destruct Ha1 as [Hplaying Hcalls]. rewrite Hplaying.
  assert (E10 : (t + 10 <=? t + 10)%nat = true) by (apply Nat.leb_le; lia).
  assert (E200 : (t + 10 <=? t + 200)%nat = true) by (apply Nat.leb_le; lia).
  assert (F200 : (t + 200 <=? t + 10)%nat = false) by (apply Nat.leb_gt; lia).
  assert (G200 : (t + 200 <=? t + 200)%nat = true) by (apply Nat.leb_le; lia).
  cbn [enqueue due]. rewrite ?E10, ?E200, ?F200, ?G200.
  cbn [enqueue due]. rewrite ?E10, ?E200, ?F200, ?G200.
  cbn [enqueue due]. rewrite ?E10, ?E200, ?F200, ?G200.
  cbn [isPressed onClickCalls timers now component].
  split; [split; reflexivity|].
  split; [|split; reflexivity].
  cbn [List.repeat].
  rewrite run_cons, elapse_fields.
  do 4 (rewrite run_cons, fire_due by (cbn [due]; lia);
        cbn [callback runCallback sound]; unfold setSound, setIsPressed;
        cbn [isPressed sound refs now timers onClickCalls]).
  change (run [] ?c) with c.
  split; [split; reflexivity|].
  eexists. split; [reflexivity|]. cbn. rewrite Hcalls. reflexivity.
Qed.

Lemma one_render_two_calls_witness :
  let m := firstRender (Some newAudio) restRefs 0 in
  let m2 := hostRun [Deliver Click; Deliver Click] m in
  let m3 := hostRun (Deliver (Elapse 200) :: List.repeat (Deliver TimerFires) 4) m2 in
  onClickCalls (component m2) = S (S (onClickCalls (component m))) /\
  settled (component m3) /\
  onClickCalls (component (hostRun [Deliver Click; Render; Deliver Click] m))
  = S (onClickCalls (component m)).
Proof.
  intros m m2 m3.
  destruct (one_render_two_calls m newAudio)
    as ((Hcalls & _) & (Hsettled & _) & _ & Hone);
    [split; reflexivity | reflexivity | reflexivity |].
  repeat split; assumption.
Defined.

(** ** The material effect, run again *)

Lemma customize_twice (f1 f2 : TextureType) (b1 b2 : Texture) (entry : string * Material) :
  customize f2 b2 (customize f1 b1 entry) = customize f2 b2 entry.
Proof.
  destruct entry as [key [m|]]; [|reflexivity].
  unfold customize at 2. destruct (isLetterMaterial key) eqn:E;
    unfold customize; rewrite E; reflexivity.
Qed.

(** Running the material effect for a finish on materials it has already
    set up, for the same or another finish, gives what it gives on the
    materials as loaded: the outcome depends on the finish chosen last and
    on nothing an earlier choice did. *)
Theorem last_finish_wins (f1 f2 : TextureType)
        (materials : option (list (string * Material))) :
  materialEffect f2 true (materialEffect f1 true materials)
  = materialEffect f2 true materials.
Proof.
  destruct materials as [ms|]; [|reflexivity].
  cbn [materialEffect]. rewrite map_map. f_equal.
  apply map_ext. intros entry. apply customize_twice.
Qed.

(** The material effect keeps the names of the surfaces and their order,
    and changes no material that is not a [MeshStandardMaterial]; and
    while the bump texture has not loaded it changes nothing at all. *)
Theorem materials_kept (f : TextureType) (loaded : bool)
        (ms : list (string * Material)) :
  exists ms' : list (string * Material),
    materialEffect f loaded (Some ms) = Some ms' /\
    map fst ms' = map fst ms /\
    (forall (i : nat) (key : string),
        nth_error ms i = Some (key, Other) -> nth_error ms' i = Some (key, Other)) /\
    (loaded = false -> ms' = ms).
Proof.
  destruct loaded; cbn [materialEffect]; eexists; (split; [reflexivity|]).
  - split; [|split; [|discriminate]].
    + rewrite map_map. apply map_ext. intros [key [m|]]; [|reflexivity].
      unfold customize. destruct (isLetterMaterial key); reflexivity.
    + intros i key Hi. rewrite nth_error_map, Hi. reflexivity.
  - split; [reflexivity|]. split; [tauto | reflexivity].
Qed.

(** ** Which names are letter surfaces *)

Lemma lowerAscii_c (ch : ascii) :
  Ascii.eqb (lowerAscii ch) "c" = isC ch.
Proof.
  destruct ch as [[] [] [] [] [] [] [] []]; reflexivity.
Qed.

Lemma includes_c (s : string) : includes (toLowerCase s) "c" = hasC s.
Proof.
  induction s as [|ch s IH]; [reflexivity|].
  cbn [toLowerCase includes hasC]. rewrite IH.
  cbn [String.prefix]. rewrite <- lowerAscii_c.
  destruct (ascii_dec "c" (lowerAscii ch)) as [E|Hne].
  - rewrite <- E. destruct (toLowerCase s); reflexivity.
  - assert (H : Ascii.eqb (lowerAscii ch) "c" = false)
      by (apply Ascii.eqb_neq; congruence).
    rewrite H. reflexivity.
Qed.

(** A surface is taken for the letter as soon as its name has a [c] or a
    [C] anywhere in it; a name without one is a letter surface exactly
    when, in lower case, it contains [letter] or [text].  So no surface
    with a [c] in its name ever gets the finish. *)
Theorem letter_names (key : string) :
  isLetterMaterial key
  = (includes (toLowerCase key) "letter" || includes (toLowerCase key) "text" || hasC key) /\
  (hasC key = true -> isLetterMaterial key = true) /\
  (isLetterMaterial key = false -> hasC key = false).
Proof.
  assert (E : isLetterMaterial key
              = (includes (toLowerCase key) "letter"
                 || includes (toLowerCase key) "text" || hasC key))
    by (unfold isLetterMaterial; rewrite includes_c; reflexivity).
  split; [exact E|]. rewrite E. split.
  - intros ->. apply orb_true_r.
  - intros H. apply orb_false_iff in H. apply H.
Qed.

Lemma letter_names_witness :
  hasC "Keycap_Body" = true /\ isLetterMaterial "Keycap_Body" = true.
Proof.
  split; [reflexivity|].
  apply (proj1 (proj2 (letter_names "Keycap_Body"))). reflexivity.
Defined.

(** ** What the component renders *)

Lemma meshKeys_renderNode (entries : list (string * Node)) :
  meshKeys (map renderNode entries)
  = map fst (filter (fun entry => isMesh (snd entry)) entries).
Proof.
  induction entries as [|[key node] entries IH]; [reflexivity|].
  cbn [map filter snd]. unfold meshKeys in *. cbn [flat_map].
  unfold renderNode at 1. cbn [fst snd].
  destruct (isMesh node); cbn [map fst app]; rewrite IH; reflexivity.
Qed.

(** With a model the component returns a group whose first child is the
    shadow plane, followed by one child per node in the order of the
    entries: a mesh under the node's key for every node that is a mesh,
    nothing for the others; nothing is logged. *)
Theorem rendered_children (entries : list (string * Node))
        (ms : option (list (string * Material))) :
  exists children : list Child,
    KeycapModel (mkGLTFResult (Some entries) ms) = ([], Returned (GroupElement children)) /\
    hd_error children = Some ShadowPlane /\
    List.length children = S (List.length entries) /\
    meshKeys children = map fst (filter (fun entry => isMesh (snd entry)) entries) /\
    (forall (i : nat) (key : string) (node : Node),
        nth_error entries i = Some (key, node) ->
        nth_error children (S i) = Some (if isMesh node then NodeMesh key else NullChild)).
Proof.
  exists (ShadowPlane :: map renderNode entries).
  split; [reflexivity|]. split; [reflexivity|].
  split; [cbn; rewrite length_map; reflexivity|].
  split; [apply (meshKeys_renderNode entries)|].
  intros i key node Hi. cbn [nth_error]. rewrite nth_error_map, Hi. reflexivity.
Qed.

(** ** The samples of the fallback click *)

Lemma envelope_positive (len i : nat) :
  (i < len)%nat -> 0 < envelope len i /\ envelope len i <= 0.5.
Proof.
  intros Hi.
  assert (Hlen : 0 < ofNat len)
    by (pose proof (ofNat_nonneg i); pose proof (ofNat_lt_strict i len Hi); lra).
  pose proof (ofNat_lt_strict i len Hi) as Hlt.
  pose proof (ofNat_nonneg i) as H0.
  destruct (Qlt_le_dec (ofNat i) (ofNat len * 0.1)) as [Ha|Hd].
  - rewrite (envelope_attack len i Ha). split; [reflexivity | lra].
  - rewrite (envelope_decay len i Hd). unfold Qdiv.
    pose proof (Qinv_lt_0_compat _ Hlen) as Hinv.
    assert (E : ofNat len * / ofNat len == 1) by (apply Qmult_inv_r; lra).
    assert (0 < (ofNat len - ofNat i) * / ofNat len)
      by (apply Qmult_lt_0_compat; lra).
    assert (0 <= ofNat i * / ofNat len)
      by (apply Qmult_le_0_compat; lra).
    lra.
Qed.

Lemma envelope_after_attack (len i : nat) :
  (i < len)%nat -> ofNat len * 0.1 <= ofNat i -> envelope len i < 0.5.
Proof.
  intros Hi Hd.
  assert (Hlen : 0 < ofNat len)
    by (pose proof (ofNat_nonneg i); pose proof (ofNat_lt_strict i len Hi); lra).
  rewrite (envelope_decay len i Hd). unfold Qdiv.
  pose proof (Qinv_lt_0_compat _ Hlen) as Hinv.
  assert (E : ofNat len * / ofNat len == 1) by (apply Qmult_inv_r; lra).
  assert (0 <= (ofNat i - ofNat len * 0.1) * / ofNat len)
    by (apply Qmult_le_0_compat; lra).
  lra.
Qed.

(** Every sample of the fallback buffer is at least 0 and at most 0.5,
    whatever [Math.random()] returns: the click is never negative and
    never clips.  Its envelope is positive at every sample, so no sample is
    forced to silence, and after the attack it is below the 0.5 of the
    attack. *)
Theorem fallback_samples (rate : Q) (random : nat -> Q) (audio : Audio) :
  (forall i : nat, 0 <= random i /\ random i < 1) ->
  let len := Z.to_nat (Qfloor (rate * 0.1)) in
  exists b : AudioBuffer.t,
    buffer (createFallbackSound rate random audio) = Some b /\
    Forall (fun v => 0 <= v /\ v <= 0.5) (AudioBuffer.channelData b) /\
    (forall i : nat,
        (i < len)%nat ->
        0 < envelope len i /\ envelope len i <= 0.5 /\
        (ofNat len * 0.1 <= ofNat i -> envelope len i < 0.5)).
Proof.
  intros Hrandom len. eexists. split; [reflexivity|].
  cbn [AudioBuffer.channelData]. fold len. split.
  - apply Forall_forall. intros v Hv.
    apply in_map_iff in Hv. destruct Hv as (i & <- & Hi).
    apply in_seq in Hi.
    assert (Hlt : (i < len)%nat) by lia.
    destruct (fallbackSample_bounds len i (random i) Hlt) as [Hlo Hhi];
      [apply Hrandom | apply Hrandom |].
    destruct (envelope_positive len i Hlt) as [_ Hle].
    split; [exact Hlo | lra].
  - intros i Hi. destruct (envelope_positive len i Hi) as [H1 H2].
    split; [exact H1|]. split; [exact H2|].
    apply envelope_after_attack, Hi.
Qed.

Lemma fallback_samples_witness :
  (forall i : nat, 0 <= (fun _ : nat => 0.9) i /\ (fun _ : nat => 0.9) i < 1) /\
  exists b : AudioBuffer.t,
    buffer (createFallbackSound 48000 (fun _ => 0.9) newAudio) = Some b /\
    Forall (fun v => 0 <= v /\ v <= 0.5) (AudioBuffer.channelData b).
Proof.
  assert (Hr : forall i : nat, 0 <= (fun _ : nat => 0.9) i /\ (fun _ : nat => 0.9) i < 1)
    by (intros i; split; [vm_compute; discriminate | reflexivity]).
  split; [exact Hr|].
  destruct (fallback_samples 48000 (fun _ => 0.9) newAudio Hr) as (b & Hb & Hall & _).
  exists b. split; assumption.
Defined.

(** ** The click counter of the scene *)

Lemma updates_iter (k : nat) (s : Scene) :
  updates (Nat.iter k handleKeycapClick s)
  = updates s ++ List.repeat (fun prev => (prev + 1)%nat) k /\
  clickCount (Nat.iter k handleKeycapClick s) = clickCount s.
Proof.
  induction k as [|k [IHu IHc]].
  - cbn. rewrite app_nil_r. split; reflexivity.
  - rewrite Nat.iter_succ. unfold handleKeycapClick at 1 3, setClickCount.
    cbn [updates clickCount]. rewrite IHu, IHc. split; [|reflexivity].
    rewrite <- app_assoc. f_equal.
    change [fun prev => (prev + 1)%nat] with (List.repeat (fun prev => (prev + 1)%nat) 1).
    rewrite <- repeat_app. f_equal. lia.
Qed.

Lemma fold_increments (k n : nat) :
  fold_left (fun m (f : nat -> nat) => f m) (List.repeat (fun prev => (prev + 1)%nat) k) n
  = (n + k)%nat.
Proof.
  revert n. induction k as [|k IH]; intros n; cbn; [lia|].
  rewrite IH. lia.
Qed.

(** The count shown by the scene goes up by exactly the number of calls of
    [handleKeycapClick] since the last render, however many of them are
    queued before React renders again: the update is a function of the
    previous count, so no call is lost. *)
Theorem scene_counts (k : nat) (s : Scene) :
  clickCount (renderScene (Nat.iter k handleKeycapClick s))
  = (clickCount (renderScene s) + k)%nat /\
  updates (renderScene (Nat.iter k handleKeycapClick s)) = [].
Proof.
  split; [|reflexivity].
  destruct (updates_iter k s) as [Hu Hc].
  unfold renderScene. cbn [clickCount]. rewrite Hu, Hc.
  rewrite fold_left_app. apply fold_increments.
Qed.

(** ** The camera effect *)

(** The camera effect puts the keycap at position.z = 0, position.y = 0.2
    and scale (1, 1, 1) wherever it was, and leaves its tilt, position.x
    and the shadow alone; run twice it does what it does once.  A keycap
    without tilt is thus in the rest pose afterwards, and pressed frames
    from there go down as they do from rest. *)
Theorem camera_effect_places (n : nat) (r : Refs) (g : Object3D) :
  group r = Some g ->
  exists g' : Object3D,
    group (cameraEffect r) = Some g' /\
    shadowRef (cameraEffect r) = shadowRef r /\
    cameraEffect (cameraEffect r) = cameraEffect r /\
    (position g' = Vector3.mk (Vector3.x (position g)) 0.2 0 /\
     scale g' = Vector3.mk 1 1 1 /\ rotation g' = rotation g) /\
    (Vector3.x (rotation g) == 0 ->
     atRest g' /\
     exists gn : Object3D,
       group (frames true n (cameraEffect r)) = Some gn /\
       Vector3.z (scale gn) == Qmax (1 - 0.04 * ofNat n) 0.65 /\
       Vector3.z (position gn) == Qmax (0 - 0.02 * ofNat n) (-0.15) /\
       Vector3.x (rotation gn) == Qmin (0.005 * ofNat n) 0.03).
Proof.
  intros Hg.
  set (g' := with_scale (Vector3.set 1 1 1)
               (with_position (Vector3.set_y 0.2)
                  (with_position (Vector3.set_z 0) g))).
  assert (E : cameraEffect r = mkRefs (Some g') (shadowRef r))
    by (unfold cameraEffect; rewrite Hg; reflexivity).
  exists g'. rewrite E.
  split; [reflexivity|]. split; [reflexivity|].
  split; [reflexivity|].
  split; [repeat split|].
  intros Ht.
  assert (Hrest : atRest g')
    by (unfold atRest; split; [reflexivity | split; [exact Ht | reflexivity]]).
  split; [exact Hrest|].
  exists (Nat.iter n pressGroup g').
  split; [apply frames_group_pressed; reflexivity|].
  split; [apply (pressed_scale_z g' Hrest)|].
  split; [apply (pressed_position_z g' Hrest) | apply (pressed_rotation_x g' Hrest)].
Qed.

(** The effect run in the middle of a press. *)
Lemma camera_effect_places_witness :
  let g := mkObject3D (Vector3.mk 0 0 (-0.1)) (Vector3.mk 0 0 0) (Vector3.mk 1 1 0.8) in
  let r := mkRefs (Some g) (Some restShadow) in
  exists g' : Object3D,
    group (cameraEffect r) = Some g' /\ atRest g'.
Proof.
  intros g r.
  destruct (camera_effect_places 3 r g eq_refl) as (g' & Hg' & _ & _ & _ & H).
  exists g'. split; [exact Hg'|]. apply H. reflexivity.
Defined.

(** ** The sound of one click *)

(** A click on the idle key silences the [Audio] at once: it is not
    playing right after the click, whatever it was doing, [stop()] having
    been called exactly when it was playing.  The timeout that starts it
    does not run before 10 ms are over; once they are, running it calls
    [play()] once and the sound is playing. *)
Theorem sound_restarts (c : Component) (a : Audio) (d : nat) :
  settled c -> sound c = Some a ->
  (exists a1 : Audio,
      sound (handleClick c) = Some a1 /\ isPlaying a1 = false /\
      playCalls a1 = playCalls a /\
      stopCalls a1 = (stopCalls a + if isPlaying a then 1 else 0)%nat) /\
  ((d < 10)%nat ->
   run [Elapse d; TimerFires] (handleClick c) = step (Elapse d) (handleClick c)) /\
  ((10 <= d)%nat ->
   exists a2 : Audio,
     sound (run [Elapse d; TimerFires] (handleClick c)) = Some a2 /\
     isPlaying a2 = true /\ playCalls a2 = S (playCalls a)).
Proof.
  intros [Hp Hl] Hs.
  destruct c as [p snd r t l k]. cbn in Hp, Hl, Hs. subst p l snd.
  change (handleClick (mkComponent false (Some a) r t [] k))
    with (press (mkComponent false (Some a) r t [] k)).
  rewrite press_fields.
  set (a1 := if isPlaying a then stop a else a).
  assert (Ha1 : isPlaying a1 = false /\ playCalls a1 = playCalls a /\
                stopCalls a1 = (stopCalls a + if isPlaying a then 1 else 0)%nat).
  { unfold a1. destruct a as [buf vol [] pc sc]; cbn; repeat split; lia. }
  destruct Ha1 as (Hplaying & Hcalls & Hstops).
  assert (E200 : (t + 10 <=? t + 200)%nat = true) by (apply Nat.leb_le; lia).
  cbn [enqueue due]. rewrite E200.
  split; [|split].
  - exists a1. repeat split; assumption.
  - intros Hd. rewrite run_cons, elapse_fields.
    change (run [TimerFires] ?c) with (step TimerFires c).
    apply fire_not_due. cbn [due]. lia.
  - intros Hd. rewrite run_cons, elapse_fields.
    change (run [TimerFires] ?c) with (step TimerFires c).
    rewrite fire_due by (cbn [due]; lia).
    cbn [callback runCallback sound]. unfold setSound.
    cbn [isPressed sound refs now timers onClickCalls].
    exists (play a1). repeat split. cbn. rewrite Hcalls. reflexivity.
Qed.

(** A click while the sound of the press before is still playing. *)
Lemma sound_restarts_witness :
  let a := play newAudio in
  let c := mounted (Some a) restRefs 500 in
  exists a2 : Audio,
    sound (run [Elapse 10; TimerFires] (handleClick c)) = Some a2 /\
    isPlaying a2 = true /\ playCalls a2 = S (playCalls a).
Proof.
  intros a c.
  destruct (sound_restarts c a 10) as (_ & _ & H);
    [split; reflexivity | reflexivity |].
  apply H. lia.
Defined.
